(** * add-to-project: a shallow embedding of [src/add-to-project.ts]

    The action reads its inputs, filters the triggering issue or pull
    request by label, parses the project URL, asks the GraphQL service for
    the project's node id, adds the item (or a draft issue) to the project
    and optionally overrides the "Status" field of the new card.

    Modelling choices.
    - A JavaScript string is held as the bytes of its UTF-8 encoding.
      [trim] strips the white space of the language; [toLowerCase] and
      [toLocaleLowerCase] are spelled out on ASCII strings and left to an
      engine ([JS.Engine]) beyond.
    - The numbers that occur are doubles with an integer value, the
      infinities and [NaN]; [parseInt] rounds to the nearest double.
    - The toolkit ([core.getInput]) and the GraphQL client
      ([octokit.graphql]) are not part of the repository: they are taken
      as oracles of the environment and each call may throw. The service
      answers a request by a function of the request; a run never sends
      the same request twice. Building the client ([github.getOctokit])
      sends nothing.
    - The responses have the shape their TypeScript interfaces declare.
    - Effects are a writer of observable events (log lines, outputs and
      remote requests, in program order) combined with exceptions. *)

From Stdlib Require Import Bool Arith Lia NArith ZArith List.
From Stdlib Require Import Ascii String DecimalString.
Import ListNotations.

Open Scope string_scope.
Open Scope list_scope.

Set Implicit Arguments.

(** ** JavaScript string and array primitives *)

Module JS.

(** *** Strings

    A JavaScript string is held as the bytes of its UTF-8 encoding. The
    program only looks inside a string for the comma, the slash, the
    decimal digits and ASCII literals, and for white space at its ends;
    all of these read the same on the bytes as on the code units. *)

(** The UTF-8 encoding of a code point of the Basic Multilingual Plane. *)
Definition utf8 (cp : N) : string :=
  if (cp <? 128)%N then String (ascii_of_N cp) EmptyString
  else if (cp <? 2048)%N then
    String (ascii_of_N (192 + cp / 64))
      (String (ascii_of_N (128 + cp mod 64)) EmptyString)
  else
    String (ascii_of_N (224 + cp / 4096))
      (String (ascii_of_N (128 + (cp / 64) mod 64))
         (String (ascii_of_N (128 + cp mod 64)) EmptyString)).

(** The code points [String.prototype.trim] and [parseInt] strip: the
    WhiteSpace and LineTerminator productions of the language (TAB, LF, VT,
    FF, CR, SP, NBSP, the space separators of Unicode, LS, PS and ZWNBSP). *)
Definition whiteSpaceCodePoints : list N :=
  [9; 10; 11; 12; 13; 32; 160; 5760;
   8192; 8193; 8194; 8195; 8196; 8197; 8198; 8199; 8200; 8201; 8202;
   8232; 8233; 8239; 8287; 12288; 65279]%N.

Definition whiteSpace : list string := Eval cbv in map utf8 whiteSpaceCodePoints.

Fixpoint dropPrefix (p s : string) : option string :=
  match p with
  | EmptyString => Some s
  | String c p' =>
      match s with
      | String d s' => if Ascii.eqb c d then dropPrefix p' s' else None
      | EmptyString => None
      end
  end.

Fixpoint dropAny (tokens : list string) (s : string) : option string :=
  match tokens with
  | [] => None
  | t :: ts =>
      match dropPrefix t s with
      | Some s' => Some s'
      | None => dropAny ts s
      end
  end.

(** [s] without one white-space character at its start, if it has one. *)
Definition dropWhiteSpace (s : string) : option string := dropAny whiteSpace s.

Fixpoint trimStartFrom (fuel : nat) (s : string) : string :=
  match fuel with
  | O => s
  | S fuel' =>
      match dropWhiteSpace s with
      | Some s' => trimStartFrom fuel' s'
      | None => s
      end
  end.

(** [s.trimStart()]: every step drops at least one byte, so the length of
    [s] is fuel enough. *)
Definition trimStart (s : string) : string := trimStartFrom (String.length s) s.

(** [s] is white space only. *)
Definition isBlank (s : string) : bool :=
  match trimStart s with
  | EmptyString => true
  | String _ _ => false
  end.

(** [s.trimEnd()]: cut where the rest of the string is white space only. *)
Fixpoint trimEnd (s : string) : string :=
  match s with
  | EmptyString => EmptyString
  | String c s' => if isBlank s then EmptyString else String c (trimEnd s')
  end.

(** [s.trim()] *)
Definition trim (s : string) : string := trimEnd (trimStart s).

Definition isUpper (c : ascii) : bool :=
  let n := nat_of_ascii c in (65 <=? n)%nat && (n <=? 90)%nat.

Definition isDigit (c : ascii) : bool :=
  let n := nat_of_ascii c in (48 <=? n)%nat && (n <=? 57)%nat.

Definition isAscii (c : ascii) : bool := (nat_of_ascii c <? 128)%nat.

Definition lowerChar (c : ascii) : ascii :=
  if isUpper c then ascii_of_nat (nat_of_ascii c + 32) else c.

(** Lower-casing of the letters A to Z. *)
Fixpoint asciiLower (s : string) : string :=
  match s with
  | EmptyString => EmptyString
  | String c s' => String (lowerChar c) (asciiLower s')
  end.

Fixpoint allBytes (p : ascii -> bool) (s : string) : bool :=
  match s with
  | EmptyString => true
  | String c s' => p c && allBytes p s'
  end.

(** What the model does not spell out of the JavaScript engine: the case
    tables of Unicode, the locale, the printed form of a number from
    [2^53] on, and the one choice the language leaves to the
    implementation in [parseInt]. *)
Record Engine : Type := {
  lowerCase : string -> string;          (* toLowerCase beyond ASCII *)
  localeLowerCase : string -> string;    (* toLocaleLowerCase beyond ASCII *)
  largeNumberForm : Z -> string;         (* Number::toString from 2^53 on *)
  zeroesLongDigits : bool                (* parseInt: digits after the 20th read as 0 *)
}.

(** [s.toLowerCase()]: on an ASCII string it lower-cases A to Z; the rest
    is the engine's. *)
Definition toLowerCase (e : Engine) (s : string) : string :=
  if allBytes isAscii s then asciiLower s else lowerCase e s.

(** [s.toLocaleLowerCase()]: the same in every locale on an ASCII string
    without the letter I (which Turkish and Azeri lower-case to a dotless
    i); the rest is the engine's. *)
Definition toLocaleLowerCase (e : Engine) (s : string) : string :=
  if allBytes (fun c => isAscii c && negb (Ascii.eqb c "I")) s then asciiLower s
  else localeLowerCase e s.

(** [s.split(sep)] for a one-character separator: never the empty list. *)
Fixpoint split (sep : ascii) (s : string) : list string :=
  match s with
  | EmptyString => [EmptyString]
  | String c s' =>
      if Ascii.eqb c sep then EmptyString :: split sep s'
      else match split sep s' with
           | x :: xs => String c x :: xs
           | [] => [String c EmptyString]
           end
  end.

(** [arr.join(sep)] *)
Fixpoint join (sep : string) (l : list string) : string :=
  match l with
  | [] => EmptyString
  | [x] => x
  | x :: xs => x ++ sep ++ join sep xs
  end.

(** [arr.includes(x)] on an array of strings. *)
Definition includes (arr : list string) (x : string) : bool :=
  existsb (String.eqb x) arr.

(** [arr.every(p)], [arr.some(p)], [arr.find(p)] *)
Definition every {A} (p : A -> bool) (arr : list A) : bool := forallb p arr.
Definition some {A} (p : A -> bool) (arr : list A) : bool := existsb p arr.
Definition find {A} (p : A -> bool) (arr : list A) : option A := List.find p arr.

(** *** Numbers

    The numbers the program meets are doubles with an integer value, the
    infinities and [NaN]. A double with an integer value is held as that
    integer. *)
Inductive number : Type :=
| NaN
| Num (z : Z)
| Infinity (negative : bool).

(** The double nearest to a natural number, ties to even; from
    [2^1024 - 2^970] on that is [Infinity]. *)
Definition toDouble (v : Z) : number :=
  if (v <? 2 ^ 53)%Z then Num v
  else
    let e := (Z.log2 v - 52)%Z in
    let q := Z.shiftr v e in
    let r := (v - Z.shiftl q e)%Z in
    let half := (2 ^ (e - 1))%Z in
    let q' := if (half <? r)%Z || ((r =? half)%Z && Z.odd q) then (q + 1)%Z else q in
    let rounded := Z.shiftl q' e in
    if (2 ^ 1024 <=? rounded)%Z then Infinity false else Num rounded.

Definition digitValue (c : ascii) : Z := Z.of_nat (nat_of_ascii c - 48).

Fixpoint takeDigits (s : string) : string :=
  match s with
  | String c s' => if isDigit c then String c (takeDigits s') else EmptyString
  | EmptyString => EmptyString
  end.

Fixpoint decimalValue (acc : Z) (s : string) : Z :=
  match s with
  | EmptyString => acc
  | String c s' => decimalValue (10 * acc + digitValue c)%Z s'
  end.

Fixpoint dropZeros (s : string) : string :=
  match s with
  | String "0" s' => dropZeros s'
  | _ => s
  end.

(** The digits with every significant digit after the 20th read as 0. *)
Fixpoint zeroAfter (keep : nat) (s : string) : string :=
  match s with
  | EmptyString => EmptyString
  | String c s' =>
      match keep with
      | O => String "0" (zeroAfter O s')
      | S keep' => String c (zeroAfter keep' s')
      end
  end.

(** The Number value of a run of decimal digits, as [parseInt] computes
    it: exact below [2^53] (such a run has at most 16 significant digits);
    beyond, the nearest double to the integer the digits spell, where an
    engine may first read the significant digits after the 20th as 0. *)
Definition numberOfDigits (e : Engine) (ds : string) : number :=
  let v := decimalValue 0 ds in
  if (v <? 2 ^ 53)%Z then Num v
  else if zeroesLongDigits e && (20 <? String.length (dropZeros ds))%nat then
    toDouble (decimalValue 0 (zeroAfter 20 (dropZeros ds)))
  else toDouble v.

Definition negate (n : number) : number :=
  match n with
  | NaN => NaN
  | Num z => Num (- z)
  | Infinity negative => Infinity (negb negative)
  end.

(** [parseInt(s, 10)]: leading white space, an optional sign, then the
    longest run of decimal digits; [NaN] when there is none. *)
Definition parseInt10 (e : Engine) (s : string) : number :=
  let s1 := trimStart s in
  let '(neg, s2) :=
    match s1 with
    | String "-" r => (true, r)
    | String "+" r => (false, r)
    | _ => (false, s1)
    end in
  match takeDigits s2 with
  | EmptyString => NaN
  | ds => let n := numberOfDigits e ds in if neg then negate n else n
  end.

(** [`${n}`] for a number: the decimal digits of an integer below [2^53];
    from there on the shortest digits that read back as the same double,
    which are the engine's to find. *)
Definition showNumber (e : Engine) (n : number) : string :=
  match n with
  | NaN => "NaN"
  | Infinity false => "Infinity"
  | Infinity true => "-Infinity"
  | Num z =>
      if (Z.abs z <? 2 ^ 53)%Z then NilZero.string_of_int (Z.to_int z)
      else largeNumberForm e z
  end.

(** [`${x}`] for a possibly undefined string. *)
Definition showString (x : option string) : string :=
  match x with
  | Some s => s
  | None => "undefined"
  end.

End JS.

(** ** Regular expressions, as far as [urlParse] needs them

    A backtracking matcher in continuation-passing style, the way the
    language definition describes [RegExp.prototype.exec]: alternatives
    are tried left to right, [?] and [+] are greedy, a named group records
    the text its body consumed, and without the [g] flag the search starts
    at index 0 and moves right until a match is found. *)

Module RegExp.

Inductive atom : Type :=
| AChar (c : ascii)        (* a literal character *)
| ANotChar (c : ascii)     (* [^c] *)
| ADigit.                  (* \d *)

Inductive regex : Type :=
| Bol                              (* ^ *)
| Lit (s : string)                 (* a run of literal characters *)
| Plus (a : atom)                  (* a+ *)
| Seq (r1 r2 : regex)              (* r1r2 *)
| Alt (r1 r2 : regex)              (* r1|r2 *)
| Opt (r : regex)                  (* (?:r)? *)
| Group (name : string) (r : regex). (* (?<name>r) *)

(** The [groups] object of a match: the most recent binding comes first. *)
Definition Groups : Type := list (string * string).

Fixpoint lookup (name : string) (g : Groups) : option string :=
  match g with
  | [] => None
  | (n, v) :: g' => if String.eqb n name then Some v else lookup name g'
  end.

Definition atomMatches (a : atom) (c : ascii) : bool :=
  match a with
  | AChar d => Ascii.eqb c d
  | ANotChar d => negb (Ascii.eqb c d)
  | ADigit => JS.isDigit c
  end.

Fixpoint stripPrefix (l s : string) : option string :=
  match l with
  | EmptyString => Some s
  | String c l' =>
      match s with
      | String d s' => if Ascii.eqb c d then stripPrefix l' s' else None
      | EmptyString => None
      end
  end.

(** A continuation receives the current index, the rest of the input and
    the groups captured so far. *)
Definition Cont : Type := nat -> string -> Groups -> option Groups.

Fixpoint star (p : ascii -> bool) (k : Cont) (pos : nat) (s : string) (g : Groups)
  : option Groups :=
  match s with
  | String c s' =>
      if p c then
        match star p k (S pos) s' g with
        | Some r => Some r
        | None => k pos s g
        end
      else k pos s g
  | EmptyString => k pos s g
  end.

Definition plus (p : ascii -> bool) (k : Cont) (pos : nat) (s : string) (g : Groups)
  : option Groups :=
  match s with
  | String c s' => if p c then star p k (S pos) s' g else None
  | EmptyString => None
  end.

Fixpoint run (r : regex) (k : Cont) (pos : nat) (s : string) (g : Groups)
  : option Groups :=
  match r with
  | Bol => if (pos =? 0)%nat then k pos s g else None
  | Lit l =>
      match stripPrefix l s with
      | Some s' => k (pos + String.length l) s' g
      | None => None
      end
  | Plus a => plus (atomMatches a) k pos s g
  | Seq r1 r2 => run r1 (run r2 k) pos s g
  | Alt r1 r2 =>
      match run r1 k pos s g with
      | Some x => Some x
      | None => run r2 k pos s g
      end
  | Opt r' =>
      match run r' k pos s g with
      | Some x => Some x
      | None => k pos s g
      end
  | Group name r' =>
      run r' (fun pos' s' g' => k pos' s' ((name, substring 0 (pos' - pos) s) :: g'))
        pos s g
  end.

Definition accept : Cont := fun _ _ g => Some g.

Fixpoint execFrom (r : regex) (pos : nat) (s : string) : option Groups :=
  match run r accept pos s [] with
  | Some g => Some g
  | None =>
      match s with
      | String _ s' => execFrom r (S pos) s'
      | EmptyString => None
      end
  end.

(** [str.match(r)] for a regular expression without flags; [None] is
    [null], otherwise the [groups] of the match. *)
Definition matchRegExp (str : string) (r : regex) : option Groups :=
  execFrom r 0 str.

End RegExp.

(** ** The program *)

Import RegExp.

(** [/^(?:https:\/\/)?github\.com\/(?<ownerType>orgs|users)\/(?<ownerName>[^/]+)\/projects\/(?<projectNumber>\d+)/] *)
Definition urlParse : regex :=
  Seq Bol
  (Seq (Opt (Lit "https://"))
  (Seq (Lit "github.com/")
  (Seq (Group "ownerType" (Alt (Lit "orgs") (Lit "users")))
  (Seq (Lit "/")
  (Seq (Group "ownerName" (Plus (ANotChar "/")))
  (Seq (Lit "/projects/")
       (Group "projectNumber" (Plus ADigit)))))))).

(** *** Data *)

(** [type OwnerQueryTypes = 'organization' | 'user'] *)
Inductive OwnerQueryTypes : Type :=
| organization
| user.

Definition showOwnerQueryTypes (q : OwnerQueryTypes) : string :=
  match q with
  | organization => "organization"
  | user => "user"
  end.

(** [interface ProjectNodeIDResponse]: each optional member is given by the
    [projectV2.id] it holds. *)
Record ProjectNodeIDResponse : Type := {
  nodeId_organization : option string;
  nodeId_user : option string
}.

(** [interface ProjectAddItemResponse], by its [addProjectV2ItemById.item.id]. *)
Record ProjectAddItemResponse : Type := {
  addProjectV2ItemById_item_id : string
}.

(** [interface ProjectV2AddDraftIssueResponse], by its
    [addProjectV2DraftIssue.projectItem.id]. *)
Record ProjectV2AddDraftIssueResponse : Type := {
  addProjectV2DraftIssue_projectItem_id : string
}.

Record FieldOption : Type := {
  option_id : string;
  option_name : string
}.

(** The [projectV2.field] object; [options] is missing when the field is
    not a single-select field. *)
Record ProjectV2Field : Type := {
  field_id : string;
  field_options : option (list FieldOption)
}.

(** [interface ProjectV2FieldIDResponse] *)
Record ProjectV2FieldIDResponse : Type := {
  field_organization : option ProjectV2Field;
  field_user : option ProjectV2Field
}.

(** [interface ProjectV2UpdateItemFieldValueResponse] *)
Record ProjectV2UpdateItemFieldValueResponse : Type := {
  updateProjectV2ItemFieldValue_updatedAt : string
}.

(** The five GraphQL documents the program sends, with their variables. *)
Inductive Request : Type :=
| getProject (root : OwnerQueryTypes) (projectOwnerName : option string)
    (projectNumber : JS.number)
| addIssueToProject (projectId contentId : option string)
| addDraftIssueToProject (projectId title : option string)
| getStatusFieldId (root : OwnerQueryTypes) (projectOwnerName : string)
    (projectNumber : JS.number)
| updateStatusFieldValue (projectId itemId : string) (fieldId : option string)
    (fieldOptionId : string).

Definition Response (q : Request) : Type :=
  match q with
  | getProject _ _ _ => ProjectNodeIDResponse
  | addIssueToProject _ _ => ProjectAddItemResponse
  | addDraftIssueToProject _ _ => ProjectV2AddDraftIssueResponse
  | getStatusFieldId _ _ _ => ProjectV2FieldIDResponse
  | updateStatusFieldValue _ _ _ _ => ProjectV2UpdateItemFieldValueResponse
  end.

(** What a call into a collaborator does: it returns or it throws. *)
Inductive Outcome (A : Type) : Type :=
| Returns (a : A)
| Throws (msg : string).
Arguments Throws {A} msg.

(** [octokit.graphql<T>(document, variables)] *)
Definition Octokit : Type := forall q : Request, Outcome (Response q).

(** The triggering event, [github.context.payload]. *)
Record Label : Type := { name : string }.

Record Issue : Type := {
  number : Z;
  labels : option (list Label);
  node_id : option string;
  html_url : option string
}.

Record Repository : Type := { owner_login : string }.

Record Payload : Type := {
  issue : option Issue;
  pull_request : option Issue;
  repository : option Repository
}.

(** The environment of a run: the JavaScript engine, the toolkit's
    [core.getInput(name, {required})], the event payload and
    [github.getOctokit(token)]. *)
Record Env : Type := {
  engine : JS.Engine;
  getInput : string -> bool -> Outcome string;
  payload : Payload;
  getOctokit : string -> Octokit
}.

(** *** Effects *)

Inductive Event : Type :=
| Debug (msg : string)                 (* core.debug *)
| Info (msg : string)                  (* core.info *)
| SetOutput (key value : string)       (* core.setOutput *)
| Graphql (q : Request).               (* a request sent by octokit.graphql *)

(** How a statement completes: normally, by [return], or by [throw]. *)
Inductive Completion (A : Type) : Type :=
| Normal (a : A)
| Return
| Throw (msg : string).
Arguments Return {A}.
Arguments Throw {A} msg.

(** The events in program order, and the completion. *)
Definition M (A : Type) : Type := (list Event * Completion A)%type.

Definition ret {A} (a : A) : M A := ([], Normal a).

Definition bind {A B} (m : M A) (f : A -> M B) : M B :=
  match m with
  | (t, Normal a) => let '(t', c) := f a in (t ++ t', c)
  | (t, Return) => (t, Return)
  | (t, Throw msg) => (t, Throw msg)
  end.

Notation "x <- c1 ;; c2" := (bind c1 (fun x => c2))
  (at level 61, c1 at next level, right associativity).
Notation "c1 ;; c2" := (bind c1 (fun _ => c2))
  (at level 61, right associativity).

Definition emit (e : Event) : M unit := ([e], Normal tt).
Definition debug (msg : string) : M unit := emit (Debug msg).
Definition info (msg : string) : M unit := emit (Info msg).
Definition setOutput (key value : string) : M unit := emit (SetOutput key value).
Definition throw {A} (msg : string) : M A := ([], Throw msg).
Definition return_ {A} : M A := ([], Return).
Definition skip : M unit := ret tt.

Definition call {A} (o : Outcome A) : M A :=
  match o with
  | Returns a => ret a
  | Throws msg => throw msg
  end.

(** [await octokit.graphql(...)]: the request goes out, then the response
    or the error comes back. *)
Definition await_graphql (octokit : Octokit) (q : Request) : M (Response q) :=
  emit (Graphql q) ;; call (octokit q).

(** The body of an [async function (): Promise<void>]: [return] and falling
    off the end both resolve the promise; a [throw] rejects it. *)
Definition function_ (body : M unit) : M unit :=
  match body with
  | (t, Normal _) => (t, Normal tt)
  | (t, Return) => (t, Normal tt)
  | (t, Throw msg) => (t, Throw msg)
  end.

Definition trace {A} (m : M A) : list Event := fst m.
Definition completion {A} (m : M A) : Completion A := snd m.

Definition required : bool := true.
Definition optional : bool := false.

(** The double-quote character, for messages that contain it. *)
Definition dq : string := String (ascii_of_nat 34) EmptyString.

(** *** [mustGetOwnerTypeQuery] *)

Definition mustGetOwnerTypeQuery (ownerType : option string) : M OwnerQueryTypes :=
  let ownerTypeQuery :=
    match ownerType with
    | Some t =>
        if String.eqb t "orgs" then Some organization
        else if String.eqb t "users" then Some user
        else None
    | None => None
    end in
  match ownerTypeQuery with
  | None =>
      throw ("Unsupported ownerType: " ++ JS.showString ownerType
             ++ ". Must be one of 'orgs' or 'users'")
  | Some q => ret q
  end.

(** *** [updateStatusFieldValueOnCard] *)

(** [resp[projectOwnerTypeQuery]] *)
Definition fieldOf (resp : ProjectV2FieldIDResponse) (root : OwnerQueryTypes)
  : option ProjectV2Field :=
  match root with
  | organization => field_organization resp
  | user => field_user resp
  end.

(** [resp[root]?.projectV2.field.options || []] *)
Definition optionsOf (resp : ProjectV2FieldIDResponse) (root : OwnerQueryTypes)
  : list FieldOption :=
  match fieldOf resp root with
  | Some f => match field_options f with Some os => os | None => [] end
  | None => []
  end.

Definition updateStatusFieldValueOnCard (env : Env)
    (projectOwnerTypeQuery : OwnerQueryTypes) (projectOwnerName : string)
    (projectNumber : JS.number) (projectId itemId : string) : M unit :=
  function_ (
    ghToken <- call (getInput env "github-token" required) ;;
    statusFieldOverride <- call (getInput env "status-override" optional) ;;
    debug ("Status field override: " ++ statusFieldOverride) ;;
    (if (String.length statusFieldOverride =? 0)%nat then
       info "Skipping status field update because no status-override input specified." ;;
       return_
     else skip) ;;
    info ("Overriding " ++ dq ++ "Status" ++ dq ++ " field value on project item") ;;
    let octokit := getOctokit env ghToken in
    statusFieldIdResp <-
      await_graphql octokit
        (getStatusFieldId projectOwnerTypeQuery projectOwnerName projectNumber) ;;
    let statusFieldId :=
      option_map field_id (fieldOf statusFieldIdResp projectOwnerTypeQuery) in
    let requiredOptionId :=
      option_map option_id
        (JS.find (fun option => String.eqb (option_name option) statusFieldOverride)
                 (optionsOf statusFieldIdResp projectOwnerTypeQuery)) in
    debug (dq ++ "Status" ++ dq ++ " Field ID: " ++ JS.showString statusFieldId) ;;
    debug ("`status-override` value's Single Select Field Option ID: "
           ++ JS.showString requiredOptionId) ;;
    match requiredOptionId with
    | None =>
        throw ("Invalid " ++ dq ++ "Status" ++ dq ++ " field option value provided: "
               ++ statusFieldOverride)
    | Some fieldOptionId =>
        updateStatusFieldResp <-
          await_graphql octokit
            (updateStatusFieldValue projectId itemId statusFieldId fieldOptionId) ;;
        skip
    end).

(** *** [addToProject] *)

(** [idResp[ownerTypeQuery]?.projectV2.id] *)
Definition projectIdOf (idResp : ProjectNodeIDResponse) (root : OwnerQueryTypes)
  : option string :=
  match root with
  | organization => nodeId_organization idResp
  | user => nodeId_user idResp
  end.

(** [`${idResp[ownerTypeQuery]?.projectV2}`] *)
Definition showProjectV2 (idResp : ProjectNodeIDResponse) (root : OwnerQueryTypes)
  : string :=
  match projectIdOf idResp root with
  | Some _ => "[object Object]"
  | None => "undefined"
  end.

(** [core.getInput('labeled').split(',').map(l => l.trim().toLowerCase())
      .filter(l => l.length > 0) ?? []] *)
Definition labeledOf (e : JS.Engine) (input : string) : list string :=
  filter (fun l => (0 <? String.length l)%nat)
         (map (fun l => JS.toLowerCase e (JS.trim l)) (JS.split "," input)).

(** [github.context.payload.issue ?? github.context.payload.pull_request] *)
Definition issueOf (p : Payload) : option Issue :=
  match issue p with
  | Some i => Some i
  | None => pull_request p
  end.

(** [(issue?.labels ?? []).map(l => l.name.toLowerCase())] *)
Definition issueLabelsOf (e : JS.Engine) (i : option Issue) : list string :=
  map (fun l => JS.toLowerCase e (name l))
      (match i with
       | Some i' => match labels i' with Some ls => ls | None => [] end
       | None => []
       end).

(** [`${issue?.number}`] *)
Definition showIssueNumber (e : JS.Engine) (i : option Issue) : string :=
  match i with
  | Some i' => JS.showNumber e (JS.Num (number i'))
  | None => "undefined"
  end.

(** [x === y] on possibly undefined strings. *)
Definition strictEq (x y : option string) : bool :=
  match x, y with
  | Some a, Some b => String.eqb a b
  | None, None => true
  | _, _ => false
  end.

Definition addToProject (env : Env) : M unit :=
  function_ (
    projectUrl <- call (getInput env "project-url" required) ;;
    ghToken <- call (getInput env "github-token" required) ;;
    labeledInput <- call (getInput env "labeled" optional) ;;
    let labeled := labeledOf (engine env) labeledInput in
    labelOperatorInput <- call (getInput env "label-operator" optional) ;;
    let labelOperator :=
      JS.toLocaleLowerCase (engine env) (JS.trim labelOperatorInput) in

    let octokit := getOctokit env ghToken in

    let issue := issueOf (payload env) in
    let issueLabels := issueLabelsOf (engine env) issue in
    let issueOwnerName := option_map owner_login (repository (payload env)) in

    debug ("Issue/PR owner: " ++ JS.showString issueOwnerName) ;;

    (if String.eqb labelOperator "and" then
       if negb (JS.every (fun l => JS.includes issueLabels l) labeled) then
         info ("Skipping issue " ++ showIssueNumber (engine env) issue
               ++ " because it doesn't match all the labels: "
               ++ JS.join ", " labeled) ;;
         return_
       else skip
     else if String.eqb labelOperator "not" then
       if (0 <? List.length labeled)%nat
          && JS.some (fun l => JS.includes labeled l) issueLabels then
         info ("Skipping issue " ++ showIssueNumber (engine env) issue
               ++ " because it contains one of the labels: "
               ++ JS.join ", " labeled) ;;
         return_
       else skip
     else
       if (0 <? List.length labeled)%nat
          && negb (JS.some (fun l => JS.includes labeled l) issueLabels) then
         info ("Skipping issue " ++ showIssueNumber (engine env) issue
               ++ " because it does not have one of the labels: "
               ++ JS.join ", " labeled) ;;
         return_
       else skip) ;;

    debug ("Project URL: " ++ projectUrl) ;;

    match matchRegExp projectUrl urlParse with
    | None =>
        throw ("Invalid project URL: " ++ projectUrl
               ++ ". Project URL should match the format https://github.com/<orgs-or-users>/<ownerName>/projects/<projectNumber>")
    | Some groups =>
        let projectOwnerName := lookup "ownerName" groups in
        let projectNumber :=
          JS.parseInt10 (engine env)
                        (match lookup "projectNumber" groups with
                         | Some n => n
                         | None => ""
                         end) in
        let ownerType := lookup "ownerType" groups in
        ownerTypeQuery <- mustGetOwnerTypeQuery ownerType ;;

        debug ("Project owner: " ++ JS.showString projectOwnerName) ;;
        debug ("Project number: " ++ JS.showNumber (engine env) projectNumber) ;;
        debug ("Project owner type: " ++ JS.showString ownerType) ;;

        idResp <-
          await_graphql octokit
            (getProject ownerTypeQuery projectOwnerName projectNumber) ;;

        let projectId := projectIdOf idResp ownerTypeQuery in
        let contentId :=
          match issue with Some i => node_id i | None => None end in

        debug ("Project node ID: " ++ JS.showString projectId) ;;
        debug ("Content ID: " ++ JS.showString contentId) ;;

        itemId <-
          (if strictEq issueOwnerName projectOwnerName then
             info "Creating project item" ;;
             addResp <- await_graphql octokit (addIssueToProject projectId contentId) ;;
             let itemId := addProjectV2ItemById_item_id addResp in
             setOutput "itemId" itemId ;;
             ret itemId
           else
             info "Creating draft issue in project" ;;
             addResp <-
               await_graphql octokit
                 (addDraftIssueToProject projectId
                    (match issue with Some i => html_url i | None => None end)) ;;
             let itemId := addProjectV2DraftIssue_projectItem_id addResp in
             setOutput "itemId" itemId ;;
             ret itemId) ;;

        match projectId with
        | None =>
            throw ("Project ID is undefined: " ++ showProjectV2 idResp ownerTypeQuery
                   ++ ". This shouldn't happen.")
        | Some projectId' =>
            match projectOwnerName with
            | None => throw "Project Owner Name is undefined. This shouldn't happen."
            | Some projectOwnerName' =>
                updateStatusFieldValueOnCard env ownerTypeQuery projectOwnerName'
                  projectNumber projectId' itemId
            end
        end
    end).

(** ** Observations on a run *)

Definition isLog (e : Event) : bool :=
  match e with
  | Debug _ | Info _ => true
  | SetOutput _ _ | Graphql _ => false
  end.

(** The requests sent to the remote service, in order. *)
Fixpoint requests (t : list Event) : list Request :=
  match t with
  | [] => []
  | Graphql q :: t' => q :: requests t'
  | _ :: t' => requests t'
  end.

Definition isAddMutation (q : Request) : bool :=
  match q with
  | addIssueToProject _ _ | addDraftIssueToProject _ _ => true
  | _ => false
  end.

Definition isStatusRequest (q : Request) : bool :=
  match q with
  | getStatusFieldId _ _ _ | updateStatusFieldValue _ _ _ _ => true
  | _ => false
  end.

(** The add-item and add-draft-issue mutations of a trace, in order. *)
Definition addMutations (t : list Event) : list Request :=
  filter isAddMutation (requests t).

(** The four inputs [addToProject] reads were supplied. *)
Definition inputsRead (env : Env) (projectUrl ghToken labeled labelOperator : string)
  : Prop :=
  getInput env "project-url" required = Returns projectUrl /\
  getInput env "github-token" required = Returns ghToken /\
  getInput env "labeled" optional = Returns labeled /\
  getInput env "label-operator" optional = Returns labelOperator.

(** The run got past the label filter: it logged the project URL, which is
    the first statement after the filter. *)
Definition proceedsPastLabelFilter (env : Env) : Prop :=
  exists url, In (Debug ("Project URL: " ++ url)) (trace (addToProject env)).

(** The run was a deliberate skip: it resolved normally and did nothing
    but log. *)
Definition skipped (env : Env) : Prop :=
  completion (addToProject env) = Normal tt /\
  (forall e, In e (trace (addToProject env)) -> isLog e = true) /\
  ~ proceedsPastLabelFilter env.

(** The configured labels and the labels of the issue, as the run sees them. *)
Definition configuredLabels (e : JS.Engine) (labeledInput : string) : list string :=
  labeledOf e labeledInput.

Definition labelsOnIssue (env : Env) : list string :=
  issueLabelsOf (engine env) (issueOf (payload env)).

(** [env] with the [label-operator] input replaced. *)
Definition withLabelOperator (env : Env) (value : string) : Env :=
  {| engine := engine env;
     getInput := fun key req =>
       if String.eqb key "label-operator" then Returns value
       else getInput env key req;
     payload := payload env;
     getOctokit := getOctokit env |}.

(** ** Declarative counterparts *)

Fixpoint allChars (p : ascii -> bool) (s : string) : bool :=
  match s with
  | EmptyString => true
  | String c s' => p c && allChars p s'
  end.

(** What a regular expression may consume: [Matches r pos g w g'] says that
    [r], started at index [pos] with groups [g], can consume the word [w]
    and leave the groups [g']. Priorities (greediness, order of the
    alternatives) are not part of it. *)
Inductive Matches : regex -> nat -> Groups -> string -> Groups -> Prop :=
| MBol g : Matches Bol 0 g "" g
| MLit l pos g : Matches (Lit l) pos g l g
| MPlus a pos g w :
    w <> "" -> allChars (atomMatches a) w = true -> Matches (Plus a) pos g w g
| MSeq r1 r2 pos g w1 g1 w2 g2 :
    Matches r1 pos g w1 g1 ->
    Matches r2 (pos + String.length w1) g1 w2 g2 ->
    Matches (Seq r1 r2) pos g (w1 ++ w2)%string g2
| MAltL r1 r2 pos g w g' : Matches r1 pos g w g' -> Matches (Alt r1 r2) pos g w g'
| MAltR r1 r2 pos g w g' : Matches r2 pos g w g' -> Matches (Alt r1 r2) pos g w g'
| MOptSome r pos g w g' : Matches r pos g w g' -> Matches (Opt r) pos g w g'
| MOptNone r pos g : Matches (Opt r) pos g "" g
| MGroup name r pos g w g' :
    Matches r pos g w g' -> Matches (Group name r) pos g w ((name, w) :: g').

(** The format
    [[https://]github.com/(orgs|users)/<owner>/projects/<number>], followed
    by anything. *)
Definition ProjectUrlFormat (url scheme ownerType ownerName digits rest : string)
  : Prop :=
  url = (scheme ++ "github.com/" ++ ownerType ++ "/" ++ ownerName
         ++ "/projects/" ++ digits ++ rest)%string /\
  (scheme = "" \/ scheme = "https://") /\
  (ownerType = "orgs" \/ ownerType = "users") /\
  ownerName <> "" /\ allChars (fun c => negb (Ascii.eqb c "/")) ownerName = true /\
  digits <> "" /\ allChars JS.isDigit digits = true.

Definition matchesProjectUrlFormat (url : string) : Prop :=
  exists scheme ownerType ownerName digits rest,
    ProjectUrlFormat url scheme ownerType ownerName digits rest.

(** [rest] does not go on with a digit: [digits] is the whole number. *)
Definition numberEnds (rest : string) : Prop :=
  match rest with
  | EmptyString => True
  | String c _ => JS.isDigit c = false
  end.

(** [orgs] selects [organization], [users] selects [user]. *)
Definition queryRootOf (ownerType : string) : OwnerQueryTypes :=
  if String.eqb ownerType "orgs" then organization else user.

Definition isLowerLetter (c : ascii) : bool :=
  let n := nat_of_ascii c in (97 <=? n)%nat && (n <=? 122)%nat.

(** A lower-case letter other than [i]. *)
Definition plainLetter (c : ascii) : bool :=
  isLowerLetter c && negb (Ascii.eqb c "i").

(** A string made of white-space characters of the language only. *)
Inductive WhiteSpaceOnly : string -> Prop :=
| BlankEmpty : WhiteSpaceOnly ""
| BlankMore w s :
    In w JS.whiteSpace -> WhiteSpaceOnly s -> WhiteSpaceOnly (w ++ s).

(** Two characters that differ at most in letter case. *)
Definition sameLetter (c d : ascii) : Prop :=
  c = d \/
  (JS.isUpper c = true /\ nat_of_ascii d = nat_of_ascii c + 32) \/
  (JS.isUpper d = true /\ nat_of_ascii c = nat_of_ascii d + 32).

Fixpoint caseVariant (s t : string) : Prop :=
  match s, t with
  | EmptyString, EmptyString => True
  | String c s', String d t' => sameLetter c d /\ caseVariant s' t'
  | _, _ => False
  end.

(** [raw] is [canon] up to letter case and surrounding white space. *)
Definition operatorVariant (canon raw : string) : Prop :=
  exists before core after,
    raw = (before ++ core ++ after)%string /\
    WhiteSpaceOnly before /\ WhiteSpaceOnly after /\
    caseVariant core canon.

(** The label filter in the words of the specification (section 4.1):
    [and] asks for every configured label on the issue, [not] for none of
    them, and any other operator for no configured label at all or at least
    one of them on the issue. *)
Definition spec_labelFilterMatches (operator : string)
    (configured onIssue : list string) : Prop :=
  if String.eqb operator "and" then
    forall l, In l configured -> In l onIssue
  else if String.eqb operator "not" then
    ~ exists l, In l configured /\ In l onIssue
  else
    configured = [] \/ exists l, In l configured /\ In l onIssue.

(** ** The parts of [addToProject], named for the proofs

    [addToProject] is one function in the source; the definitions below cut
    it at its comments. Lemma [addToProject_parts] shows that putting them
    together gives [addToProject] back. *)

(** Lines 96-111: the label filter. *)
Definition labelFilter (e : JS.Engine) (labelOperator : string)
    (labeled issueLabels : list string) (issue : option Issue) : M unit :=
  if String.eqb labelOperator "and" then
    if negb (JS.every (fun l => JS.includes issueLabels l) labeled) then
      info ("Skipping issue " ++ showIssueNumber e issue
            ++ " because it doesn't match all the labels: "
            ++ JS.join ", " labeled) ;;
      return_
    else skip
  else if String.eqb labelOperator "not" then
    if (0 <? List.length labeled)%nat
       && JS.some (fun l => JS.includes labeled l) issueLabels then
      info ("Skipping issue " ++ showIssueNumber e issue
            ++ " because it contains one of the labels: "
            ++ JS.join ", " labeled) ;;
      return_
    else skip
  else
    if (0 <? List.length labeled)%nat
       && negb (JS.some (fun l => JS.includes labeled l) issueLabels) then
      info ("Skipping issue " ++ showIssueNumber e issue
            ++ " because it does not have one of the labels: "
            ++ JS.join ", " labeled) ;;
      return_
    else skip.

(** The condition under which [labelFilter] does not [return]. *)
Definition labelFilterPasses (labelOperator : string)
    (labeled issueLabels : list string) : bool :=
  if String.eqb labelOperator "and" then
    JS.every (fun l => JS.includes issueLabels l) labeled
  else if String.eqb labelOperator "not" then
    negb ((0 <? List.length labeled)%nat
          && JS.some (fun l => JS.includes labeled l) issueLabels)
  else
    negb ((0 <? List.length labeled)%nat
          && negb (JS.some (fun l => JS.includes labeled l) issueLabels)).

(** Lines 156-200: add the item, or a draft issue. *)
Definition attachItem (octokit : Octokit) (issue : option Issue)
    (issueOwnerName projectOwnerName projectId contentId : option string)
  : M string :=
  if strictEq issueOwnerName projectOwnerName then
    info "Creating project item" ;;
    addResp <- await_graphql octokit (addIssueToProject projectId contentId) ;;
    let itemId := addProjectV2ItemById_item_id addResp in
    setOutput "itemId" itemId ;;
    ret itemId
  else
    info "Creating draft issue in project" ;;
    addResp <-
      await_graphql octokit
        (addDraftIssueToProject projectId
           (match issue with Some i => html_url i | None => None end)) ;;
    let itemId := addProjectV2DraftIssue_projectItem_id addResp in
    setOutput "itemId" itemId ;;
    ret itemId.

(** Lines 202-208: the checks before the status update, and the update. *)
Definition checkAndUpdateStatus (env : Env) (idResp : ProjectNodeIDResponse)
    (ownerTypeQuery : OwnerQueryTypes) (projectOwnerName : option string)
    (projectNumber : JS.number) (itemId : string) : M unit :=
  match projectIdOf idResp ownerTypeQuery with
  | None =>
      throw ("Project ID is undefined: " ++ showProjectV2 idResp ownerTypeQuery
             ++ ". This shouldn't happen.")
  | Some projectId' =>
      match projectOwnerName with
      | None => throw "Project Owner Name is undefined. This shouldn't happen."
      | Some projectOwnerName' =>
          updateStatusFieldValueOnCard env ownerTypeQuery projectOwnerName'
            projectNumber projectId' itemId
      end
  end.

(** Lines 147-208: everything after the project-id query has answered. *)
Definition afterProjectQuery (env : Env) (octokit : Octokit) (issue : option Issue)
    (issueOwnerName projectOwnerName : option string) (projectNumber : JS.number)
    (ownerTypeQuery : OwnerQueryTypes) (idResp : ProjectNodeIDResponse) : M unit :=
  let projectId := projectIdOf idResp ownerTypeQuery in
  let contentId := match issue with Some i => node_id i | None => None end in
  debug ("Project node ID: " ++ JS.showString projectId) ;;
  debug ("Content ID: " ++ JS.showString contentId) ;;
  itemId <- attachItem octokit issue issueOwnerName projectOwnerName projectId
              contentId ;;
  checkAndUpdateStatus env idResp ownerTypeQuery projectOwnerName projectNumber
    itemId.

(** Lines 123-208: everything after the project URL has matched. *)
Definition afterUrlMatch (env : Env) (octokit : Octokit) (issue : option Issue)
    (issueOwnerName : option string) (groups : Groups) : M unit :=
  let projectOwnerName := lookup "ownerName" groups in
  let projectNumber :=
    JS.parseInt10 (engine env)
                  (match lookup "projectNumber" groups with
                   | Some n => n
                   | None => ""
                   end) in
  let ownerType := lookup "ownerType" groups in
  ownerTypeQuery <- mustGetOwnerTypeQuery ownerType ;;
  debug ("Project owner: " ++ JS.showString projectOwnerName) ;;
  debug ("Project number: " ++ JS.showNumber (engine env) projectNumber) ;;
  debug ("Project owner type: " ++ JS.showString ownerType) ;;
  idResp <-
    await_graphql octokit (getProject ownerTypeQuery projectOwnerName projectNumber) ;;
  afterProjectQuery env octokit issue issueOwnerName projectOwnerName projectNumber
    ownerTypeQuery idResp.

(** Lines 113-208: everything after the label filter. *)
Definition afterLabelFilter (env : Env) (projectUrl : string) (octokit : Octokit)
    (issue : option Issue) (issueOwnerName : option string) : M unit :=
  debug ("Project URL: " ++ projectUrl) ;;
  match matchRegExp projectUrl urlParse with
  | None =>
      throw ("Invalid project URL: " ++ projectUrl
             ++ ". Project URL should match the format https://github.com/<orgs-or-users>/<ownerName>/projects/<projectNumber>")
  | Some groups => afterUrlMatch env octokit issue issueOwnerName groups
  end.

(** Lines 278-310 of [updateStatusFieldValueOnCard]: everything after the
    field query has answered. *)
Definition afterStatusQuery (octokit : Octokit) (statusFieldOverride : string)
    (projectOwnerTypeQuery : OwnerQueryTypes) (projectId itemId : string)
    (statusFieldIdResp : ProjectV2FieldIDResponse) : M unit :=
  let statusFieldId :=
    option_map field_id (fieldOf statusFieldIdResp projectOwnerTypeQuery) in
  let requiredOptionId :=
    option_map option_id
      (JS.find (fun option => String.eqb (option_name option) statusFieldOverride)
               (optionsOf statusFieldIdResp projectOwnerTypeQuery)) in
  debug (dq ++ "Status" ++ dq ++ " Field ID: " ++ JS.showString statusFieldId) ;;
  debug ("`status-override` value's Single Select Field Option ID: "
         ++ JS.showString requiredOptionId) ;;
  match requiredOptionId with
  | None =>
      throw ("Invalid " ++ dq ++ "Status" ++ dq ++ " field option value provided: "
             ++ statusFieldOverride)
  | Some fieldOptionId =>
      updateStatusFieldResp <-
        await_graphql octokit
          (updateStatusFieldValue projectId itemId statusFieldId fieldOptionId) ;;
      skip
  end.

(** The rest of the input does not go on with a character of the class. *)
Definition stopsAt (p : ascii -> bool) (rest : string) : Prop :=
  match rest with
  | EmptyString => True
  | String c _ => p c = false
  end.

(** [urlParse] from the slash after the owner type on. *)
Definition urlParseTail : regex :=
  Seq (Lit "/")
  (Seq (Group "ownerName" (Plus (ANotChar "/")))
  (Seq (Lit "/projects/")
       (Group "projectNumber" (Plus ADigit)))).

(** ** Sample runs *)

Module Sample.

(** The engine of the sample runs, which hold ASCII text and print no
    number above [2^53]: beyond ASCII and from [2^53] on it is a stand-in. *)
Definition asciiEngine : JS.Engine :=
  {| JS.lowerCase := JS.asciiLower;
     JS.localeLowerCase := JS.asciiLower;
     JS.largeNumberForm := fun z => NilZero.string_of_int (Z.to_int z);
     JS.zeroesLongDigits := false |}.

Definition inputs (projectUrl labeled labelOperator statusOverride : string)
  : string -> bool -> Outcome string :=
  fun key _ =>
    if String.eqb key "project-url" then Returns projectUrl
    else if String.eqb key "github-token" then Returns "ghs_token"
    else if String.eqb key "labeled" then Returns labeled
    else if String.eqb key "label-operator" then Returns labelOperator
    else if String.eqb key "status-override" then Returns statusOverride
    else Returns "".

Definition statusField : ProjectV2Field :=
  {| field_id := "FIELD";
     field_options :=
       Some [ {| option_id := "opt-todo"; option_name := "Todo" |};
              {| option_id := "opt-done"; option_name := "Done" |} ] |}.

(** A service that knows the project, under the given query root. *)
Definition service (known : bool) : Octokit :=
  fun q =>
    match q return Outcome (Response q) with
    | getProject _ _ _ =>
        Returns {| nodeId_organization := if known then Some "PROJECT" else None;
                   nodeId_user := None |}
    | addIssueToProject _ _ => Returns {| addProjectV2ItemById_item_id := "ITEM" |}
    | addDraftIssueToProject _ _ =>
        Returns {| addProjectV2DraftIssue_projectItem_id := "DRAFT" |}
    | getStatusFieldId _ _ _ =>
        Returns {| field_organization := Some statusField; field_user := None |}
    | updateStatusFieldValue _ _ _ _ =>
        Returns {| updateProjectV2ItemFieldValue_updatedAt := "2024-01-01T00:00:00Z" |}
    end.

Definition event (labelNames : list string) (repoOwner : string) : Payload :=
  {| issue :=
       Some {| number := 12;
               labels := Some (map (fun n => {| name := n |}) labelNames);
               node_id := Some "NODE";
               html_url :=
                 Some ("https://github.com/" ++ repoOwner ++ "/widgets/issues/12")%string |};
     pull_request := None;
     repository := Some {| owner_login := repoOwner |} |}.

Definition env (projectUrl labeled labelOperator statusOverride : string)
    (labelNames : list string) (repoOwner : string) (known : bool) : Env :=
  {| engine := asciiEngine;
     getInput := inputs projectUrl labeled labelOperator statusOverride;
     payload := event labelNames repoOwner;
     getOctokit := fun _ => service known |}.

Definition acmeUrl : string := "https://github.com/orgs/acme/projects/7".




End Sample.

(** ** What a run may show *)

(** The events of a trace other than log lines: requests and outputs. *)
Definition observable (t : list Event) : list Event :=
  filter (fun e => negb (isLog e)) t.

(** The add mutation lines 157-196 choose for a project of the given owner
    and id. *)
Definition addRequest (env : Env) (projectOwnerName : string)
    (projectId : option string) : Request :=
  let issue := issueOf (payload env) in
  if strictEq (option_map owner_login (repository (payload env)))
       (Some projectOwnerName) then
    addIssueToProject projectId
      (match issue with Some i => node_id i | None => None end)
  else
    addDraftIssueToProject projectId
      (match issue with Some i => html_url i | None => None end).

Definition failed (c : Completion unit) : Prop := exists msg, c = Throw msg.

Definition settled (c : Completion unit) : Prop := c = Normal tt \/ failed c.

(** The observable events of the status step, and how it can complete. *)
Inductive StatusPipeline (root : OwnerQueryTypes) (projectOwnerName : string)
    (projectNumber : JS.number) (projectId : option string) (itemId : string)
  : list Event -> Completion unit -> Prop :=
| StatusSilent c :
    settled c ->
    StatusPipeline root projectOwnerName projectNumber projectId itemId [] c
| StatusQueried pid c :
    projectId = Some pid -> failed c ->
    StatusPipeline root projectOwnerName projectNumber projectId itemId
      [Graphql (getStatusFieldId root projectOwnerName projectNumber)] c
| StatusUpdated pid fieldId optionId c :
    projectId = Some pid -> settled c ->
    StatusPipeline root projectOwnerName projectNumber projectId itemId
      [Graphql (getStatusFieldId root projectOwnerName projectNumber);
       Graphql (updateStatusFieldValue pid itemId (Some fieldId) optionId)] c.

(** The item identifier in the answer to an add mutation, if it answered. *)
Definition returnedItemId (octokit : Octokit) (q : Request) : option string :=
  match q as q0 return Outcome (Response q0) -> option string with
  | addIssueToProject _ _ =>
      fun o => match o with
               | Returns r => Some (addProjectV2ItemById_item_id r)
               | Throws _ => None
               end
  | addDraftIssueToProject _ _ =>
      fun o => match o with
               | Returns r => Some (addProjectV2DraftIssue_projectItem_id r)
               | Throws _ => None
               end
  | _ => fun _ => None
  end (octokit q).

(** The observable events of a whole run, and how it can complete. *)
Inductive Pipeline (env : Env) : list Event -> Completion unit -> Prop :=
| RunSilent c : settled c -> Pipeline env [] c
| RunQueried root owner n c :
    failed c ->
    Pipeline env [Graphql (getProject root (Some owner) n)] c
| RunAddFailed root owner n projectId c :
    failed c ->
    Pipeline env
      [Graphql (getProject root (Some owner) n);
       Graphql (addRequest env owner projectId)] c
| RunAdded root owner n projectId itemId st c :
    (forall ghToken,
       getInput env "github-token" required = Returns ghToken ->
       returnedItemId (getOctokit env ghToken) (addRequest env owner projectId)
       = Some itemId) ->
    StatusPipeline root owner n projectId itemId st c ->
    Pipeline env
      ([Graphql (getProject root (Some owner) n);
        Graphql (addRequest env owner projectId);
        SetOutput "itemId" itemId] ++ st) c.

Fixpoint dropDigits (s : string) : string :=
  match s with
  | String c s' => if JS.isDigit c then dropDigits s' else s
  | EmptyString => EmptyString
  end.

(** [env] in which reading the input [missing] throws, the way the toolkit
    does for a required input that was not supplied. *)
Definition withoutInput (env : Env) (missing : string) : Env :=
  {| engine := engine env;
     getInput := fun key req =>
       if String.eqb key missing then
         Throws ("Input required and not supplied: " ++ missing)
       else getInput env key req;
     payload := payload env;
     getOctokit := getOctokit env |}.

(** Two lists with the same elements. *)
Definition sameElements (l1 l2 : list string) : Prop :=
  forall x, In x l1 <-> In x l2.

(** Sample services that fail, and sample events that lack parts. *)
Module Failing.

Definition projectQuery : Octokit :=
  fun q =>
    match q return Outcome (Response q) with
    | getProject _ _ _ => Throws "Could not resolve to an Organization"
    | q' => Sample.service true q'
    end.

Definition addMutation : Octokit :=
  fun q =>
    match q return Outcome (Response q) with
    | addIssueToProject _ _ => Throws "Resource not accessible by integration"
    | q' => Sample.service true q'
    end.

Definition env (octokit : Octokit) (statusOverride : string) : Env :=
  {| engine := Sample.asciiEngine;
     getInput := Sample.inputs Sample.acmeUrl "" "" statusOverride;
     payload := Sample.event [] "acme";
     getOctokit := fun _ => octokit |}.

(** An event with no issue, no pull request and no repository. *)
Definition bareEnv : Env :=
  {| engine := Sample.asciiEngine;
     getInput := Sample.inputs Sample.acmeUrl "" "" "";
     payload := {| issue := None; pull_request := None; repository := None |};
     getOctokit := fun _ => Sample.service true |}.

End Failing.

(** ** The label filter, read off the inputs and the event *)

(** [entries] are the entries of the comma-separated [input]: none holds a
    comma, and joined by commas they give [input] back. *)
Definition commaSeparated (input : string) (entries : list string) : Prop :=
  entries <> [] /\
  (forall entry, In entry entries ->
     allChars (fun c => negb (Ascii.eqb c ",")) entry = true) /\
  String.concat "," entries = input.

(** The labels of the triggering issue, or else of the pull request. *)
Definition eventLabels (env : Env) : list Label :=
  match issue (payload env) with
  | Some i => match labels i with Some ls => ls | None => [] end
  | None =>
      match pull_request (payload env) with
      | Some i => match labels i with Some ls => ls | None => [] end
      | None => []
      end
  end.

(** [l] is a configured label: a non-empty entry, trimmed and lower-cased. *)
Definition spec_configured (e : JS.Engine) (entries : list string) (l : string)
  : Prop :=
  l <> "" /\ exists entry, In entry entries /\ l = JS.toLowerCase e (JS.trim entry).

(** [l] is a label of the issue, lower-cased. *)
Definition spec_onIssue (env : Env) (l : string) : Prop :=
  exists label, In label (eventLabels env) /\
                l = JS.toLowerCase (engine env) (name label).

(** The label filter in the words of the specification (section 4.1), on
    the two label sets. *)
Definition spec_filterMatches (operator : string)
    (configured onIssue : string -> Prop) : Prop :=
  if String.eqb operator "and" then
    forall l, configured l -> onIssue l
  else if String.eqb operator "not" then
    ~ exists l, configured l /\ onIssue l
  else
    (~ exists l, configured l) \/ exists l, configured l /\ onIssue l.

(** The outputs set along a trace, in order. *)
Fixpoint outputs (t : list Event) : list (string * string) :=
  match t with
  | [] => []
  | SetOutput key value :: t' => (key, value) :: outputs t'
  | _ :: t' => outputs t'
  end.

(** A character that starts a white-space character of the language. *)
Definition startsWhiteSpace (c : ascii) : bool :=
  existsb (fun w => match w with
                    | String a _ => Ascii.eqb a c
                    | EmptyString => false
                    end) JS.whiteSpace.

(** An input made of commas and white space only. *)
Inductive CommasAndWhiteSpace : string -> Prop :=
| BlankInputEmpty : CommasAndWhiteSpace ""
| BlankInputComma s : CommasAndWhiteSpace s -> CommasAndWhiteSpace (String "," s)
| BlankInputSpace w s :
    In w JS.whiteSpace -> CommasAndWhiteSpace s -> CommasAndWhiteSpace (w ++ s).

(** ** Facts about strings *)

Section StringFacts.

Lemma append_assoc (s1 s2 s3 : string) :
  ((s1 ++ s2) ++ s3 = s1 ++ (s2 ++ s3))%string.
Proof. induction s1 as [|c s1 IH]; simpl; [reflexivity | now rewrite IH]. Qed.

Lemma append_empty_r (s : string) : (s ++ "")%string = s.
Proof. induction s as [|c s IH]; simpl; [reflexivity | now rewrite IH]. Qed.

Lemma length_append (s1 s2 : string) :
  String.length (s1 ++ s2) = String.length s1 + String.length s2.
Proof. induction s1 as [|c s1 IH]; simpl; [reflexivity | now rewrite IH]. Qed.

Lemma substring_append (w s : string) :
  substring 0 (String.length w) (w ++ s) = w.
Proof.
  induction w as [|c w IH]; simpl.
  - destruct s; reflexivity.
  - now rewrite IH.
Qed.

Lemma stripPrefix_append (l s : string) : stripPrefix l (l ++ s) = Some s.
Proof.
  induction l as [|c l IH]; simpl; [reflexivity|].
  now rewrite Ascii.eqb_refl.
Qed.

Lemma stripPrefix_inv (l s s' : string) :
  stripPrefix l s = Some s' -> s = (l ++ s')%string.
Proof.
  revert s; induction l as [|c l IH]; simpl; intros s H.
  - now inversion H.
  - destruct s as [|d s]; [discriminate|].
    destruct (Ascii.eqb_spec c d) as [->|]; [|discriminate].
    now rewrite (IH _ H).
Qed.

Lemma allChars_append (p : ascii -> bool) (s1 s2 : string) :
  allChars p (s1 ++ s2) = allChars p s1 && allChars p s2.
Proof.
  induction s1 as [|c s1 IH]; simpl; [reflexivity|].
  now rewrite IH, andb_assoc.
Qed.

End StringFacts.

(** ** The matcher against its declarative counterpart *)

Section Matcher.

Lemma star_sound (p : ascii -> bool) (k : Cont) :
  forall s pos g x,
    star p k pos s g = Some x ->
    exists w s', s = (w ++ s')%string /\ allChars p w = true /\
                 k (pos + String.length w) s' g = Some x.
Proof.
  induction s as [|c s IH]; simpl; intros pos g x H.
  - exists "", "". simpl. now rewrite Nat.add_0_r.
  - destruct (p c) eqn:Hc.
    + destruct (star p k (S pos) s g) as [r|] eqn:Hs.
      * inversion H; subst r.
        destruct (IH _ _ _ Hs) as (w & s' & -> & Hw & Hk).
        exists (String c w), s'. simpl. rewrite Hc, Hw.
        repeat split; trivial.
        now rewrite <- Nat.add_succ_comm.
      * exists "", (String c s). simpl. now rewrite Nat.add_0_r.
    + exists "", (String c s). simpl. now rewrite Nat.add_0_r.
Qed.

Lemma plus_sound (p : ascii -> bool) (k : Cont) s pos g x :
  plus p k pos s g = Some x ->
  exists w s', s = (w ++ s')%string /\ w <> "" /\ allChars p w = true /\
               k (pos + String.length w) s' g = Some x.
Proof.
  destruct s as [|c s]; simpl; [discriminate|].
  destruct (p c) eqn:Hc; [|discriminate].
  intros H. destruct (star_sound _ _ _ _ _ H) as (w & s' & -> & Hw & Hk).
  exists (String c w), s'. simpl. rewrite Hc, Hw.
  repeat split; trivial; [discriminate|].
  now rewrite <- Nat.add_succ_comm.
Qed.

Lemma run_sound (r : regex) :
  forall k pos s g x,
    run r k pos s g = Some x ->
    exists w s' g', s = (w ++ s')%string /\ Matches r pos g w g' /\
                    k (pos + String.length w) s' g' = Some x.
Proof.
  induction r as [|l|a|r1 IH1 r2 IH2|r1 IH1 r2 IH2|r IH|name r IH];
    simpl; intros k pos s g x H.
  - destruct (Nat.eqb_spec pos 0) as [->|]; [|discriminate].
    exists "", s, g. repeat split; [constructor | exact H].
  - destruct (stripPrefix l s) as [s'|] eqn:Hl; [|discriminate].
    exists l, s', g. repeat split; [now apply stripPrefix_inv | constructor | exact H].
  - destruct (plus_sound _ _ _ _ _ H) as (w & s' & -> & Hne & Hw & Hk).
    exists w, s', g. repeat split; [now constructor | exact Hk].
  - destruct (IH1 _ _ _ _ _ H) as (w1 & s1 & g1 & -> & M1 & H1).
    destruct (IH2 _ _ _ _ _ H1) as (w2 & s2 & g2 & -> & M2 & H2).
    exists (w1 ++ w2)%string, s2, g2. repeat split.
    + now rewrite append_assoc.
    + econstructor; eassumption.
    + now rewrite length_append, Nat.add_assoc.
  - destruct (run r1 k pos s g) as [y|] eqn:H1.
    + inversion H; subst y.
      destruct (IH1 _ _ _ _ _ H1) as (w & s' & g' & -> & M & Hk).
      exists w, s', g'. repeat split; [now apply MAltL | exact Hk].
    + destruct (IH2 _ _ _ _ _ H) as (w & s' & g' & -> & M & Hk).
      exists w, s', g'. repeat split; [now apply MAltR | exact Hk].
  - destruct (run r k pos s g) as [y|] eqn:H1.
    + inversion H; subst y.
      destruct (IH _ _ _ _ _ H1) as (w & s' & g' & -> & M & Hk).
      exists w, s', g'. repeat split; [now apply MOptSome | exact Hk].
    + exists "", s, g. simpl. rewrite Nat.add_0_r.
      repeat split; [apply MOptNone | exact H].
  - destruct (IH _ _ _ _ _ H) as (w & s' & g' & -> & M & Hk).
    exists w, s', ((name, w) :: g'). repeat split; [now constructor|].
    replace (pos + String.length w - pos) with (String.length w) in Hk by lia.
    now rewrite substring_append in Hk.
Qed.

(** Greedy repetition: when the class is exhausted and the continuation
    accepts there, that is the answer. *)
Lemma star_greedy (p : ascii -> bool) (k : Cont) :
  forall w pos rest g x,
    allChars p w = true -> stopsAt p rest ->
    k (pos + String.length w) rest g = Some x ->
    star p k pos (w ++ rest) g = Some x.
Proof.
  induction w as [|c w IH]; simpl; intros pos rest g x Hw Hstop Hk.
  - rewrite Nat.add_0_r in Hk.
    destruct rest as [|d rest]; simpl in *; [exact Hk|].
    now rewrite Hstop.
  - apply andb_true_iff in Hw as [Hc Hw]. rewrite Hc.
    rewrite (IH (S pos) rest g x Hw Hstop); [reflexivity|].
    now rewrite Nat.add_succ_comm.
Qed.

Lemma plus_greedy (p : ascii -> bool) (k : Cont) w pos rest g x :
  w <> "" -> allChars p w = true -> stopsAt p rest ->
  k (pos + String.length w) rest g = Some x ->
  plus p k pos (w ++ rest) g = Some x.
Proof.
  destruct w as [|c w]; [congruence|]. simpl. intros _ Hw Hstop Hk.
  apply andb_true_iff in Hw as [Hc Hw]. rewrite Hc.
  apply star_greedy; trivial.
  now rewrite Nat.add_succ_comm.
Qed.

(** A pattern that begins with [^] matches at index 0 or not at all. *)
Lemma execFrom_anchored (r : regex) :
  forall s pos, execFrom (Seq Bol r) (S pos) s = None.
Proof.
  induction s as [|c s IH]; intros pos; simpl; [reflexivity | apply IH].
Qed.

Lemma matchRegExp_anchored (r : regex) (str : string) :
  matchRegExp str (Seq Bol r) = run r accept 0 str [].
Proof.
  unfold matchRegExp. destruct str as [|c s]; simpl.
  - now destruct (run r accept 0 "" []).
  - destruct (run r accept 0 (String c s) []); [reflexivity|].
    apply execFrom_anchored.
Qed.

Lemma substring_group pos w s :
  substring 0 (pos + String.length w - pos) (w ++ s) = w.
Proof.
  replace (pos + String.length w - pos) with (String.length w) by lia.
  apply substring_append.
Qed.

End Matcher.

(** ** [urlParse] and the project URL format *)

Ltac inv H := inversion H; subst; clear H.

Ltac invert_matches :=
  repeat match goal with
  | M : Matches (Seq _ _) _ _ _ _ |- _ => inv M
  | M : Matches (Group _ _) _ _ _ _ |- _ => inv M
  | M : Matches (Lit _) _ _ _ _ |- _ => inv M
  | M : Matches (Plus _) _ _ _ _ |- _ => inv M
  | M : Matches (Opt _) _ _ _ _ |- _ => inv M
  | M : Matches (Alt _ _) _ _ _ _ |- _ => inv M
  end.

Section UrlParse.

(** Whatever [urlParse] matches has the format, and the groups hold its
    parts. *)
Lemma urlParse_sound url g :
  matchRegExp url urlParse = Some g ->
  exists scheme ownerType ownerName digits rest,
    ProjectUrlFormat url scheme ownerType ownerName digits rest /\
    g = [("projectNumber", digits); ("ownerName", ownerName);
         ("ownerType", ownerType)].
Proof.
  unfold urlParse. rewrite matchRegExp_anchored. intros H.
  apply run_sound in H as (w & rest & g' & -> & M & Hacc).
  unfold accept in Hacc. inversion Hacc; subst g'; clear Hacc.
  invert_matches;
    match goal with
    | |- context [ [("projectNumber", ?d); ("ownerName", ?o); ("ownerType", ?t)] ] =>
        match goal with
        | |- context [ ((?s ++ _) ++ rest)%string ] =>
            exists s, t, o, d, rest
        end
    end;
    (split; [|reflexivity]);
    unfold ProjectUrlFormat; repeat rewrite append_assoc;
    repeat split; auto.
Qed.

Lemma urlParseTail_complete pos ownerName digits rest g :
  ownerName <> "" -> allChars (fun c => negb (Ascii.eqb c "/")) ownerName = true ->
  digits <> "" -> allChars JS.isDigit digits = true ->
  numberEnds rest ->
  run urlParseTail accept pos
      ("/" ++ ownerName ++ "/projects/" ++ digits ++ rest) g =
    Some (("projectNumber", digits) :: ("ownerName", ownerName) :: g).
Proof.
  intros Hne Hown Hdne Hdig Hend.
  unfold urlParseTail. cbn [run].
  rewrite stripPrefix_append.
  apply plus_greedy; trivial; [reflexivity|].
  rewrite stripPrefix_append.
  apply plus_greedy; trivial.
  unfold accept. now rewrite !substring_group.
Qed.

(** A URL of the format is matched, and the groups are its parts. *)
Lemma urlParse_complete url scheme ownerType ownerName digits rest :
  ProjectUrlFormat url scheme ownerType ownerName digits rest ->
  numberEnds rest ->
  matchRegExp url urlParse =
    Some [("projectNumber", digits); ("ownerName", ownerName);
          ("ownerType", ownerType)].
Proof.
  intros (-> & Hs & Ho & Hne & Hown & Hdne & Hdig) Hend.
  unfold urlParse. rewrite matchRegExp_anchored.
  fold urlParseTail.
  pose proof (fun pos g =>
    @urlParseTail_complete pos ownerName digits rest g Hne Hown Hdne Hdig Hend)
    as Htail.
  remember urlParseTail as tail eqn:Etail.
  destruct Hs as [->| ->]; destruct Ho as [->| ->];
    cbn in Htail |- *; now rewrite Htail.
Qed.

End UrlParse.

(** ** Facts about the effect monad *)

Section Effects.

Context {A B : Type}.

Lemma pair_trace_completion (m : M A) : m = (trace m, completion m).
Proof. now destruct m. Qed.

Lemma bind_ret (a : A) (f : A -> M B) : bind (ret a) f = f a.
Proof. unfold bind, ret. now destruct (f a). Qed.

Lemma bind_call_returns (a : A) (f : A -> M B) : bind (call (Returns a)) f = f a.
Proof. apply bind_ret. Qed.

Lemma bind_call_throws (msg : string) (f : A -> M B) :
  bind (call (Throws msg)) f = throw msg.
Proof. reflexivity. Qed.

Lemma bind_throw (msg : string) (f : A -> M B) : bind (throw msg) f = throw msg.
Proof. reflexivity. Qed.

Lemma bind_return (f : A -> M B) : bind return_ f = return_.
Proof. reflexivity. Qed.

Lemma trace_bind_normal (m : M A) (f : A -> M B) (a : A) :
  completion m = Normal a -> trace (bind m f) = trace m ++ trace (f a).
Proof. destruct m as [t c]. simpl. intros ->. now destruct (f a). Qed.

Lemma completion_bind_normal (m : M A) (f : A -> M B) (a : A) :
  completion m = Normal a -> completion (bind m f) = completion (f a).
Proof. destruct m as [t c]. simpl. intros ->. now destruct (f a). Qed.

Lemma bind_normal (t : list Event) (a : A) (f : A -> M B) :
  bind (t, Normal a) f = (t ++ trace (f a), completion (f a)).
Proof. simpl. now destruct (f a). Qed.

End Effects.

Lemma bind_emit {B} (e : Event) (k : unit -> M B) :
  bind (emit e) k = (e :: trace (k tt), completion (k tt)).
Proof. unfold bind, emit. now destruct (k tt). Qed.

Lemma trace_function_ (m : M unit) : trace (function_ m) = trace m.
Proof. now destruct m as [t [[]| |msg]]. Qed.

Lemma completion_function_ (m : M unit) :
  completion (function_ m) =
    match completion m with
    | Normal _ | Return => Normal tt
    | Throw msg => Throw msg
    end.
Proof. now destruct m as [t [[]| |msg]]. Qed.

Lemma requests_app (t1 t2 : list Event) :
  requests (t1 ++ t2) = requests t1 ++ requests t2.
Proof.
  induction t1 as [|e t1 IH]; simpl; [reflexivity|].
  destruct e; simpl; now rewrite IH.
Qed.

Lemma addMutations_app (t1 t2 : list Event) :
  addMutations (t1 ++ t2) = addMutations t1 ++ addMutations t2.
Proof. unfold addMutations. now rewrite requests_app, filter_app. Qed.

(** ** [addToProject] from its parts *)

Lemma addToProject_parts (env : Env) :
  addToProject env =
    function_ (
      projectUrl <- call (getInput env "project-url" required) ;;
      ghToken <- call (getInput env "github-token" required) ;;
      labeledInput <- call (getInput env "labeled" optional) ;;
      labelOperatorInput <- call (getInput env "label-operator" optional) ;;
      let issue := issueOf (payload env) in
      let issueOwnerName := option_map owner_login (repository (payload env)) in
      debug ("Issue/PR owner: " ++ JS.showString issueOwnerName) ;;
      labelFilter (engine env) (JS.toLocaleLowerCase (engine env) (JS.trim labelOperatorInput))
        (labeledOf (engine env) labeledInput) (issueLabelsOf (engine env) issue) issue ;;
      afterLabelFilter env projectUrl (getOctokit env ghToken) issue issueOwnerName).
Proof. reflexivity. Qed.

Section LabelFilter.

Variables (e : JS.Engine) (labelOperator : string)
          (labeled issueLabels : list string) (issue : option Issue).

Lemma labelFilter_passes :
  labelFilterPasses labelOperator labeled issueLabels = true ->
  labelFilter e labelOperator labeled issueLabels issue = skip.
Proof.
  unfold labelFilterPasses, labelFilter.
  destruct (String.eqb labelOperator "and").
  - now intros ->.
  - destruct (String.eqb labelOperator "not"); intros H;
      apply negb_true_iff in H; now rewrite H.
Qed.

Lemma labelFilter_returns :
  labelFilterPasses labelOperator labeled issueLabels = false ->
  exists msg,
    labelFilter e labelOperator labeled issueLabels issue = ([Info msg], Return).
Proof.
  unfold labelFilterPasses, labelFilter.
  destruct (String.eqb labelOperator "and").
  - intros ->. simpl. eexists. reflexivity.
  - destruct (String.eqb labelOperator "not"); intros H;
      apply negb_false_iff in H; rewrite H; eexists; reflexivity.
Qed.

End LabelFilter.

Section Run.

Variables (env : Env) (projectUrl ghToken labeledInput labelOperatorInput : string).
Hypothesis Hin : inputsRead env projectUrl ghToken labeledInput labelOperatorInput.

Let labelOperator := JS.toLocaleLowerCase (engine env) (JS.trim labelOperatorInput).
Let issue' := issueOf (payload env).
Let issueOwnerName := option_map owner_login (repository (payload env)).
Let ownerLine := Debug ("Issue/PR owner: " ++ JS.showString issueOwnerName).
Let rest :=
  afterLabelFilter env projectUrl (getOctokit env ghToken) issue' issueOwnerName.

Lemma addToProject_passed :
  labelFilterPasses labelOperator (labeledOf (engine env) labeledInput) (labelsOnIssue env) = true ->
  addToProject env = function_ (ownerLine :: trace rest, completion rest).
Proof.
  intros Hp. destruct Hin as (H1 & H2 & H3 & H4).
  rewrite addToProject_parts, H1, H2, H3, H4.
  rewrite !bind_call_returns. cbv zeta.
  rewrite (labelFilter_passes (engine env) _ _ _ _ Hp).
  unfold skip, debug. rewrite bind_emit, bind_ret. reflexivity.
Qed.

Lemma addToProject_returned :
  labelFilterPasses labelOperator (labeledOf (engine env) labeledInput) (labelsOnIssue env) = false ->
  exists msg, addToProject env = ([ownerLine; Info msg], Normal tt).
Proof.
  intros Hp. destruct Hin as (H1 & H2 & H3 & H4).
  destruct (labelFilter_returns (engine env) _ _ _ issue' Hp) as (msg & Hmsg).
  exists msg.
  rewrite addToProject_parts, H1, H2, H3, H4.
  rewrite !bind_call_returns. cbv zeta.
  fold issue'. unfold labelsOnIssue in Hmsg. fold issue' in Hmsg.
  fold labelOperator. rewrite Hmsg. reflexivity.
Qed.

Lemma trace_rest_head :
  exists t, trace rest = Debug ("Project URL: " ++ projectUrl) :: t.
Proof.
  unfold rest, afterLabelFilter, debug. rewrite bind_emit. eexists. reflexivity.
Qed.

Lemma proceeds_iff_passes :
  proceedsPastLabelFilter env <->
  labelFilterPasses labelOperator (labeledOf (engine env) labeledInput) (labelsOnIssue env) = true.
Proof.
  unfold proceedsPastLabelFilter.
  destruct (labelFilterPasses labelOperator (labeledOf (engine env) labeledInput)
              (labelsOnIssue env)) eqn:Hp.
  - split; [trivial | intros _].
    rewrite (addToProject_passed Hp), trace_function_.
    destruct trace_rest_head as (t & Ht). rewrite Ht.
    exists projectUrl. simpl. auto.
  - split; [|discriminate].
    destruct (addToProject_returned Hp) as (msg & ->).
    intros (url & [H|[H|[]]]); discriminate.
Qed.

Lemma skipped_iff_not_passes :
  skipped env <->
  labelFilterPasses labelOperator (labeledOf (engine env) labeledInput) (labelsOnIssue env) = false.
Proof.
  split.
  - intros (_ & _ & Hn).
    destruct (labelFilterPasses _ _ _) eqn:Hp; [|reflexivity].
    exfalso. apply Hn. now apply proceeds_iff_passes.
  - intros Hp. unfold skipped.
    assert (Hn : ~ proceedsPastLabelFilter env).
    { rewrite proceeds_iff_passes, Hp. discriminate. }
    destruct (addToProject_returned Hp) as (msg & E). rewrite E.
    repeat split; trivial.
    simpl. intros e [<-|[<-|[]]]; reflexivity.
Qed.

End Run.

(** ** The label filter *)

Section ArrayFacts.

Lemma includes_In (arr : list string) (x : string) :
  JS.includes arr x = true <-> In x arr.
Proof.
  unfold JS.includes. rewrite existsb_exists. split.
  - intros (y & Hy & E). apply String.eqb_eq in E. now subst.
  - intros H. exists x. split; [exact H | apply String.eqb_refl].
Qed.

Lemma every_includes (arr l : list string) :
  JS.every (fun x => JS.includes arr x) l = true <->
  (forall x, In x l -> In x arr).
Proof.
  unfold JS.every. rewrite forallb_forall.
  split; intros H x Hx; apply includes_In; auto.
Qed.

Lemma some_includes (arr l : list string) :
  JS.some (fun x => JS.includes arr x) l = true <->
  (exists x, In x arr /\ In x l).
Proof.
  unfold JS.some. rewrite existsb_exists. split.
  - intros (x & Hx & Hi). exists x. split; [now apply includes_In | exact Hx].
  - intros (x & Ha & Hl). exists x. split; [exact Hl | now apply includes_In].
Qed.

Lemma nonempty_length {A} (l : list A) : (0 <? List.length l)%nat = true <-> l <> [].
Proof. destruct l; cbn; split; intros H; congruence. Qed.

(** A configured label is an entry of the comma-separated input, trimmed
    and lower-cased, that is not empty. *)
Lemma configuredLabels_spec (e : JS.Engine) (input l : string) :
  In l (configuredLabels e input) <->
  l <> "" /\ exists x, In x (JS.split "," input) /\ l = JS.toLowerCase e (JS.trim x).
Proof.
  unfold configuredLabels, labeledOf. rewrite filter_In, in_map_iff. split.
  - intros ((x & <- & Hx) & Hlen). split; [|now exists x].
    intros E. rewrite E in Hlen. discriminate.
  - intros (Hne & x & Hx & ->). split; [now exists x|].
    destruct (JS.toLowerCase e (JS.trim x)); [congruence | reflexivity].
Qed.

(** The filter of the code against the filter of the specification. *)
Lemma labelFilterPasses_spec (operator : string) (configured onIssue : list string) :
  labelFilterPasses operator configured onIssue = true <->
  spec_labelFilterMatches operator configured onIssue.
Proof.
  unfold labelFilterPasses, spec_labelFilterMatches.
  destruct (String.eqb operator "and"); [apply every_includes|].
  destruct (String.eqb operator "not").
  - rewrite negb_true_iff, andb_false_iff. split.
    + intros [H|H] (l & Hc & Hi).
      * destruct configured; [contradiction | discriminate].
      * assert (JS.some (fun x => JS.includes configured x) onIssue = true)
          by (apply some_includes; eauto).
        congruence.
    + intros H. right.
      destruct (JS.some _ onIssue) eqn:E; [|reflexivity].
      exfalso. apply H. now apply some_includes.
  - rewrite negb_true_iff, andb_false_iff, negb_false_iff. split.
    + intros [H|H].
      * left. destruct configured; [reflexivity | discriminate].
      * right. now apply some_includes.
    + intros [->|H]; [now left | right; now apply some_includes].
Qed.

End ArrayFacts.

(** ** The label sets of the code and of the specification *)

Section LabelSets.

Lemma split_entry (sep : ascii) (x rest : string) :
  allChars (fun c => negb (Ascii.eqb c sep)) x = true ->
  JS.split sep (x ++ String sep rest) = x :: JS.split sep rest.
Proof.
  induction x as [|c x IH]; simpl; intros H.
  - now rewrite Ascii.eqb_refl.
  - apply andb_true_iff in H as [Hc Hx]. apply negb_true_iff in Hc.
    now rewrite Hc, (IH Hx).
Qed.

Lemma split_last_entry (sep : ascii) (x : string) :
  allChars (fun c => negb (Ascii.eqb c sep)) x = true -> JS.split sep x = [x].
Proof.
  induction x as [|c x IH]; simpl; intros H; [reflexivity|].
  apply andb_true_iff in H as [Hc Hx]. apply negb_true_iff in Hc.
  now rewrite Hc, (IH Hx).
Qed.

(** [split] finds the entries of a comma-separated input. *)
Lemma split_commaSeparated (input : string) (entries : list string) :
  commaSeparated input entries -> JS.split "," input = entries.
Proof.
  intros (Hne & Hno & <-).
  induction entries as [|x xs IH]; [congruence|].
  destruct xs as [|y ys].
  - simpl. apply split_last_entry. apply Hno. now left.
  - change (String.concat "," (x :: y :: ys))
      with (x ++ String "," (String.concat "," (y :: ys)))%string.
    rewrite split_entry by (apply Hno; now left).
    f_equal. apply IH; [discriminate|].
    intros entry H. apply Hno. now right.
Qed.

Lemma split_nonempty (sep : ascii) (s : string) : JS.split sep s <> [].
Proof.
  destruct s as [|c s]; simpl; [discriminate|].
  destruct (Ascii.eqb c sep); [discriminate|].
  destruct (JS.split sep s); discriminate.
Qed.

Lemma split_no_separator (sep : ascii) (s x : string) :
  In x (JS.split sep s) -> allChars (fun c => negb (Ascii.eqb c sep)) x = true.
Proof.
  revert x. induction s as [|c s IH]; simpl; intros x Hx.
  - destruct Hx as [<-|[]]. reflexivity.
  - destruct (Ascii.eqb c sep) eqn:Ec.
    + destruct Hx as [<-|Hx]; [reflexivity | now apply IH].
    + destruct (JS.split sep s) as [|y ys] eqn:E.
      * destruct Hx as [<-|[]]. simpl. now rewrite Ec.
      * destruct Hx as [<-|Hx].
        -- simpl. rewrite Ec. apply IH; simpl; auto.
        -- apply IH; simpl; auto.
Qed.

Lemma concat_split (s : string) : String.concat "," (JS.split "," s) = s.
Proof.
  induction s as [|c s IH]; [reflexivity|].
  cbn [JS.split]. pose proof (@split_nonempty "," s) as Hne.
  destruct (Ascii.eqb c ",") eqn:Ec.
  - apply Ascii.eqb_eq in Ec. subst c.
    destruct (JS.split "," s) as [|y ys]; [congruence|].
    change (String.concat "," ("" :: y :: ys))
      with (String "," (String.concat "," (y :: ys))).
    now rewrite IH.
  - destruct (JS.split "," s) as [|y ys]; [congruence|].
    rewrite <- IH. destruct ys; reflexivity.
Qed.

(** Every input has its entries. *)
Lemma commaSeparated_split (input : string) :
  commaSeparated input (JS.split "," input).
Proof.
  split; [apply split_nonempty | split; [|apply concat_split]].
  intros entry. apply split_no_separator.
Qed.

Lemma configured_iff (e : JS.Engine) (input : string) (entries : list string) (l : string) :
  commaSeparated input entries ->
  (In l (labeledOf e input) <-> spec_configured e entries l).
Proof.
  intros H. fold (configuredLabels e input).
  rewrite configuredLabels_spec, (split_commaSeparated H). reflexivity.
Qed.

Lemma eventLabels_issueOf (env : Env) :
  eventLabels env =
    match issueOf (payload env) with
    | Some i => match labels i with Some ls => ls | None => [] end
    | None => []
    end.
Proof.
  unfold eventLabels, issueOf.
  destruct (issue (payload env)); [reflexivity|].
  now destruct (pull_request (payload env)).
Qed.

Lemma onIssue_iff (env : Env) (l : string) :
  In l (labelsOnIssue env) <-> spec_onIssue env l.
Proof.
  unfold labelsOnIssue, issueLabelsOf, spec_onIssue.
  rewrite eventLabels_issueOf, in_map_iff.
  split; intros (label & H1 & H2); exists label; auto.
Qed.

Lemma nothing_configured (e : JS.Engine) (input : string) (entries : list string) :
  commaSeparated input entries ->
  (labeledOf e input = [] <-> ~ exists l, spec_configured e entries l).
Proof.
  intros H. split.
  - intros E (l & Hl). apply (configured_iff e l H) in Hl. rewrite E in Hl.
    destruct Hl.
  - intros Hn. destruct (labeledOf e input) as [|l ls] eqn:E; [reflexivity|].
    exfalso. apply Hn. exists l. apply (configured_iff e l H). rewrite E. now left.
Qed.

(** The filter of the code, on the inputs of a run, against the filter of
    the specification on the label sets. *)
Lemma labelFilterPasses_sets (env : Env) (operator input : string)
    (entries : list string) :
  commaSeparated input entries ->
  (labelFilterPasses operator (labeledOf (engine env) input) (labelsOnIssue env) = true
   <-> spec_filterMatches operator (spec_configured (engine env) entries)
         (spec_onIssue env)).
Proof.
  intros H. rewrite labelFilterPasses_spec.
  unfold spec_labelFilterMatches, spec_filterMatches.
  assert (Hboth : (exists l, In l (labeledOf (engine env) input) /\ In l (labelsOnIssue env))
                  <-> exists l, spec_configured (engine env) entries l /\
                                spec_onIssue env l).
  { split; intros (l & H1 & H2); exists l; split;
      try (apply (configured_iff (engine env) l H); assumption);
      try (apply onIssue_iff; assumption). }
  destruct (String.eqb operator "and").
  - split; intros Hall l Hl.
    + apply onIssue_iff, Hall. now apply (configured_iff (engine env) l H).
    + apply onIssue_iff, Hall. now apply (configured_iff (engine env) l H).
  - destruct (String.eqb operator "not").
    + now rewrite Hboth.
    + now rewrite Hboth, (nothing_configured (engine env) H).
Qed.

End LabelSets.

Section FilterOfRun.

Variables (env : Env) (projectUrl ghToken labeledInput labelOperatorInput : string)
          (entries : list string).
Hypothesis Hin : inputsRead env projectUrl ghToken labeledInput labelOperatorInput.
Hypothesis Hentries : commaSeparated labeledInput entries.

Let operator := JS.toLocaleLowerCase (engine env) (JS.trim labelOperatorInput).
Let configured := spec_configured (engine env) entries.
Let onIssue := spec_onIssue env.

Lemma proceeds_iff_matches :
  proceedsPastLabelFilter env <-> spec_filterMatches operator configured onIssue.
Proof.
  rewrite (proceeds_iff_passes Hin). apply (labelFilterPasses_sets env _ Hentries).
Qed.

Lemma skipped_iff_no_match :
  skipped env <-> ~ spec_filterMatches operator configured onIssue.
Proof.
  rewrite (skipped_iff_not_passes Hin). unfold configured, onIssue.
  rewrite <- (labelFilterPasses_sets env operator Hentries). unfold operator.
  now destruct (labelFilterPasses _ _ _).
Qed.

(** Under [and]. *)
Lemma run_under_and :
  operator = "and" ->
  (proceedsPastLabelFilter env <-> forall l, configured l -> onIssue l).
Proof.
  intros E. rewrite proceeds_iff_matches. unfold spec_filterMatches.
  now rewrite E.
Qed.

(** Under [not]. *)
Lemma run_under_not :
  operator = "not" ->
  (skipped env <->
   (exists l, configured l) /\ exists l, configured l /\ onIssue l) /\
  (~ ((exists l, configured l) /\ exists l, configured l /\ onIssue l) ->
   proceedsPastLabelFilter env).
Proof.
  intros E.
  assert (Hm : spec_filterMatches operator configured onIssue <->
               ~ exists l, configured l /\ onIssue l).
  { unfold spec_filterMatches. now rewrite E. }
  split.
  - rewrite skipped_iff_no_match, Hm. split.
    + intros Hnn.
      assert (Hs : skipped env) by (apply skipped_iff_no_match; now rewrite Hm).
      assert (Hp : labelFilterPasses operator (labeledOf (engine env) labeledInput)
                     (labelsOnIssue env) = false)
        by now apply (skipped_iff_not_passes Hin).
      assert (Hex : exists l, In l (labeledOf (engine env) labeledInput) /\
                              In l (labelsOnIssue env)).
      { unfold labelFilterPasses in Hp. fold operator in Hp. rewrite E in Hp.
        simpl String.eqb in Hp. cbv iota in Hp.
        apply negb_false_iff, andb_true_iff in Hp as [_ Hp].
        apply some_includes in Hp. exact Hp. }
      destruct Hex as (l & Hc & Hi).
      apply (configured_iff (engine env) l Hentries) in Hc.
      apply onIssue_iff in Hi.
      split; exists l; auto.
    + intros (_ & Hex) Hn. contradiction.
  - intros Hn. apply proceeds_iff_matches, Hm.
    intros (l & Hc & Hi). apply Hn. split; exists l; auto.
Qed.

(** Under any other operator. *)
Lemma run_under_default :
  operator <> "and" -> operator <> "not" ->
  ((~ exists l, configured l) -> proceedsPastLabelFilter env) /\
  ((exists l, configured l) ->
   (proceedsPastLabelFilter env <-> exists l, configured l /\ onIssue l)) /\
  ((exists l, configured l) -> ~ (exists l, configured l /\ onIssue l) ->
   skipped env).
Proof.
  intros Hand Hnot. apply String.eqb_neq in Hand, Hnot.
  assert (Hm : spec_filterMatches operator configured onIssue <->
               (~ exists l, configured l) \/ exists l, configured l /\ onIssue l).
  { unfold spec_filterMatches. now rewrite Hand, Hnot. }
  split; [|split].
  - intros Hn. apply proceeds_iff_matches, Hm. now left.
  - intros Hex. rewrite proceeds_iff_matches, Hm.
    split; [intros [Hn|H]; [contradiction | exact H] | intros H; now right].
  - intros Hex Hn. apply skipped_iff_no_match. rewrite Hm.
    intros [H|H]; contradiction.
Qed.

End FilterOfRun.

(** ** The label filter of a run *)

(** C2. When the label operator is [and], the run proceeds past the label
    filter if and only if every configured label (a non-empty entry of the
    comma-separated [labeled] input, trimmed and lower-cased) is the
    lower-cased name of a label of the issue. *)
Theorem and_operator_needs_every_label
    (env : Env) (projectUrl ghToken labeledInput labelOperatorInput : string)
    (entries : list string) :
  inputsRead env projectUrl ghToken labeledInput labelOperatorInput ->
  commaSeparated labeledInput entries ->
  JS.toLocaleLowerCase (engine env) (JS.trim labelOperatorInput) = "and" ->
  (proceedsPastLabelFilter env <->
   forall l, spec_configured (engine env) entries l -> spec_onIssue env l).
Proof. intros Hin He Hop. exact (run_under_and Hin He Hop). Qed.

Lemma and_operator_needs_every_label_sample :
  proceedsPastLabelFilter
    (Sample.env Sample.acmeUrl ("bug," ++ JS.utf8 160 ++ "Help Wanted" ++ JS.utf8 160)
       "AND" "" ["Bug"; "help wanted"] "acme" true) /\
  ~ proceedsPastLabelFilter
      (Sample.env Sample.acmeUrl "bug, Help Wanted" "AND" "" ["Bug"] "acme" true).
Proof.
  split.
  - refine (proj2 (@and_operator_needs_every_label
              (Sample.env Sample.acmeUrl
                 ("bug," ++ JS.utf8 160 ++ "Help Wanted" ++ JS.utf8 160) "AND" ""
                 ["Bug"; "help wanted"] "acme" true)
              Sample.acmeUrl "ghs_token"
              ("bug," ++ JS.utf8 160 ++ "Help Wanted" ++ JS.utf8 160) "AND"
              ["bug"; (JS.utf8 160 ++ "Help Wanted" ++ JS.utf8 160)%string]
              (conj eq_refl (conj eq_refl (conj eq_refl eq_refl))) _ eq_refl) _).
    + split; [discriminate | split; [|reflexivity]].
      intros entry [<-|[<-|[]]]; reflexivity.
    + intros l (_ & entry & [<-|[<-|[]]] & ->).
      * exists {| name := "Bug" |}. split; [simpl; auto | reflexivity].
      * exists {| name := "help wanted" |}. split; [simpl; auto | reflexivity].
  - intros H.
    assert (Hc : commaSeparated "bug, Help Wanted" ["bug"; " Help Wanted"]).
    { split; [discriminate | split; [|reflexivity]].
      intros entry [<-|[<-|[]]]; reflexivity. }
    destruct (proj1 (@and_operator_needs_every_label
                (Sample.env Sample.acmeUrl "bug, Help Wanted" "AND" "" ["Bug"] "acme" true)
                Sample.acmeUrl "ghs_token" "bug, Help Wanted" "AND"
                ["bug"; " Help Wanted"]
                (conj eq_refl (conj eq_refl (conj eq_refl eq_refl))) Hc eq_refl) H
                "help wanted") as (label & [<-|[]] & E).
    + split; [discriminate|].
      exists " Help Wanted". split; [simpl; auto | reflexivity].
    + discriminate E.
Defined.

(** C3. When the label operator is [not], the run is skipped (it resolves
    normally and only logs) if and only if some label is configured and
    some configured label is a label of the issue; otherwise it
    proceeds. *)
Theorem not_operator_skips_on_any_label
    (env : Env) (projectUrl ghToken labeledInput labelOperatorInput : string)
    (entries : list string) :
  inputsRead env projectUrl ghToken labeledInput labelOperatorInput ->
  commaSeparated labeledInput entries ->
  JS.toLocaleLowerCase (engine env) (JS.trim labelOperatorInput) = "not" ->
  (skipped env <->
   (exists l, spec_configured (engine env) entries l) /\
   exists l, spec_configured (engine env) entries l /\ spec_onIssue env l) /\
  (~ ((exists l, spec_configured (engine env) entries l) /\
      exists l, spec_configured (engine env) entries l /\ spec_onIssue env l) ->
   proceedsPastLabelFilter env).
Proof. intros Hin He Hop. exact (run_under_not Hin He Hop). Qed.

Lemma not_operator_skips_on_any_label_sample :
  skipped (Sample.env Sample.acmeUrl "wontfix, duplicate" " Not " "" ["Duplicate"]
             "acme" true).
Proof.
  assert (Hc : commaSeparated "wontfix, duplicate" ["wontfix"; " duplicate"]).
  { split; [discriminate | split; [|reflexivity]].
    intros entry [<-|[<-|[]]]; reflexivity. }
  assert (Hl : spec_configured Sample.asciiEngine ["wontfix"; " duplicate"] "duplicate").
  { split; [discriminate|]. exists " duplicate". split; [simpl; auto | reflexivity]. }
  apply (proj1 (@not_operator_skips_on_any_label
           (Sample.env Sample.acmeUrl "wontfix, duplicate" " Not " "" ["Duplicate"]
              "acme" true)
           Sample.acmeUrl "ghs_token" "wontfix, duplicate" " Not "
           ["wontfix"; " duplicate"]
           (conj eq_refl (conj eq_refl (conj eq_refl eq_refl))) Hc eq_refl)).
  split; [now exists "duplicate"|].
  exists "duplicate". split; [exact Hl|].
  exists {| name := "Duplicate" |}. split; [simpl; auto | reflexivity].
Defined.

(** C4. Under any operator other than [and] and [not]: with no label
    configured the run proceeds; with labels configured it proceeds if and
    only if one of them is a label of the issue, and is skipped otherwise;
    and the comparison ignores letter case: an entry of the input and a
    label of the issue that agree once trimmed and lower-cased are a
    match. *)
Theorem default_operator_needs_some_label
    (env : Env) (projectUrl ghToken labeledInput labelOperatorInput : string)
    (entries : list string) :
  inputsRead env projectUrl ghToken labeledInput labelOperatorInput ->
  commaSeparated labeledInput entries ->
  JS.toLocaleLowerCase (engine env) (JS.trim labelOperatorInput) <> "and" ->
  JS.toLocaleLowerCase (engine env) (JS.trim labelOperatorInput) <> "not" ->
  ((~ exists l, spec_configured (engine env) entries l) ->
   proceedsPastLabelFilter env) /\
  ((exists l, spec_configured (engine env) entries l) ->
   (proceedsPastLabelFilter env <->
    exists l, spec_configured (engine env) entries l /\ spec_onIssue env l)) /\
  ((exists l, spec_configured (engine env) entries l) ->
   ~ (exists l, spec_configured (engine env) entries l /\ spec_onIssue env l) ->
   skipped env) /\
  (forall entry label,
     In entry entries -> In label (eventLabels env) ->
     JS.toLowerCase (engine env) (JS.trim entry)
     = JS.toLowerCase (engine env) (name label) ->
     JS.toLowerCase (engine env) (JS.trim entry) <> "" ->
     proceedsPastLabelFilter env).
Proof.
  intros Hin He Hand Hnot.
  destruct (run_under_default Hin He Hand Hnot) as (H1 & H2 & H3).
  split; [exact H1 | split; [exact H2 | split; [exact H3|]]].
  intros entry label Hentry Hlabel Heq Hne.
  assert (Hc : spec_configured (engine env) entries
                 (JS.toLowerCase (engine env) (JS.trim entry))).
  { split; [exact Hne | now exists entry]. }
  apply (H2 (ex_intro _ _ Hc)).
  exists (JS.toLowerCase (engine env) (JS.trim entry)). split; [exact Hc|].
  exists label. split; [exact Hlabel | exact Heq].
Qed.

Lemma default_operator_needs_some_label_sample :
  proceedsPastLabelFilter
    (Sample.env Sample.acmeUrl "bug, help wanted" "" "" ["Bug"] "acme" true) /\
  skipped
    (Sample.env Sample.acmeUrl "bug, help wanted" "" "" ["question"] "acme" true).
Proof.
  assert (Hc : commaSeparated "bug, help wanted" ["bug"; " help wanted"]).
  { split; [discriminate | split; [|reflexivity]].
    intros entry [<-|[<-|[]]]; reflexivity. }
  split.
  - refine (proj2 (proj2 (proj2 (@default_operator_needs_some_label
              (Sample.env Sample.acmeUrl "bug, help wanted" "" "" ["Bug"] "acme" true)
              Sample.acmeUrl "ghs_token" "bug, help wanted" "" ["bug"; " help wanted"]
              (conj eq_refl (conj eq_refl (conj eq_refl eq_refl))) Hc _ _)))
              "bug" {| name := "Bug" |} _ _ eq_refl _).
    + vm_compute. discriminate.
    + vm_compute. discriminate.
    + simpl. auto.
    + simpl. auto.
    + vm_compute. discriminate.
  - refine (proj1 (proj2 (proj2 (@default_operator_needs_some_label
              (Sample.env Sample.acmeUrl "bug, help wanted" "" "" ["question"] "acme" true)
              Sample.acmeUrl "ghs_token" "bug, help wanted" "" ["bug"; " help wanted"]
              (conj eq_refl (conj eq_refl (conj eq_refl eq_refl))) Hc _ _))) _ _).
    + vm_compute. discriminate.
    + vm_compute. discriminate.
    + exists "bug". split; [discriminate|].
      exists "bug". split; [simpl; auto | reflexivity].
    + intros (l & (_ & entry & [<-|[<-|[]]] & ->) & label & [<-|[]] & E);
        discriminate E.
Defined.

(** C8. Whenever the label filter, as the specification words it on the
    configured labels and the labels of the issue, does not match, the run
    resolves normally without having sent a request or set an output, and
    without having reached the project URL. *)
Theorem label_mismatch_is_a_clean_skip
    (env : Env) (projectUrl ghToken labeledInput labelOperatorInput : string)
    (entries : list string) :
  inputsRead env projectUrl ghToken labeledInput labelOperatorInput ->
  commaSeparated labeledInput entries ->
  ~ spec_filterMatches
      (JS.toLocaleLowerCase (engine env) (JS.trim labelOperatorInput))
      (spec_configured (engine env) entries) (spec_onIssue env) ->
  completion (addToProject env) = Normal tt /\
  requests (trace (addToProject env)) = [] /\
  (forall key value, ~ In (SetOutput key value) (trace (addToProject env))) /\
  ~ proceedsPastLabelFilter env.
Proof.
  intros Hin He Hn.
  assert (Hp : labelFilterPasses
                 (JS.toLocaleLowerCase (engine env) (JS.trim labelOperatorInput))
                 (labeledOf (engine env) labeledInput) (labelsOnIssue env) = false).
  { destruct (labelFilterPasses _ _ _) eqn:E; [|reflexivity].
    exfalso. apply Hn. now apply (labelFilterPasses_sets env _ He). }
  assert (Hnp : ~ proceedsPastLabelFilter env).
  { rewrite (proceeds_iff_passes Hin), Hp. discriminate. }
  destruct (addToProject_returned Hin Hp) as (msg & E).
  rewrite E. simpl. repeat split; trivial.
  intros key value [H|[H|[]]]; discriminate.
Qed.

Lemma label_mismatch_is_a_clean_skip_sample :
  completion (addToProject
    (Sample.env Sample.acmeUrl "bug" "and" "" ["question"] "acme" true)) = Normal tt /\
  requests (trace (addToProject
    (Sample.env Sample.acmeUrl "bug" "and" "" ["question"] "acme" true))) = [].
Proof.
  assert (Hc : commaSeparated "bug" ["bug"]).
  { split; [discriminate | split; [|reflexivity]].
    intros entry [<-|[]]; reflexivity. }
  refine (let H := @label_mismatch_is_a_clean_skip
           (Sample.env Sample.acmeUrl "bug" "and" "" ["question"] "acme" true)
           Sample.acmeUrl "ghs_token" "bug" "and" ["bug"]
           (conj eq_refl (conj eq_refl (conj eq_refl eq_refl))) Hc _ in
          conj (proj1 H) (proj1 (proj2 H))).
  intros H.
  destruct (H "bug") as (label & [<-|[]] & E); [|discriminate E].
  split; [discriminate|]. exists "bug". split; [simpl; auto | reflexivity].
Defined.

(** ** The project URL of a run *)

Section Sequencing.

Context {A B C : Type}.

Lemma bind_assoc (m : M A) (f : A -> M B) (g : B -> M C) :
  bind (bind m f) g = bind m (fun x => bind (f x) g).
Proof.
  destruct m as [t [a| |msg]]; simpl; trivial.
  destruct (f a) as [t1 [b| |msg1]]; simpl; trivial.
  destruct (g b) as [t2 c]. now rewrite app_assoc.
Qed.

End Sequencing.

Lemma bind_await {B} (octokit : Octokit) (q : Request) (k : Response q -> M B) :
  bind (await_graphql octokit q) k =
    (Graphql q :: trace (bind (call (octokit q)) k),
     completion (bind (call (octokit q)) k)).
Proof. unfold await_graphql. now rewrite bind_assoc, bind_emit. Qed.

Section Digits.

Lemma dropWhiteSpace_plain (c : ascii) (s : string) :
  startsWhiteSpace c = false -> JS.dropWhiteSpace (String c s) = None.
Proof.
  destruct c as [[] [] [] [] [] [] [] []]; vm_compute; intros H;
    try discriminate H; reflexivity.
Qed.

Lemma trimStart_plain (c : ascii) (s : string) :
  startsWhiteSpace c = false -> JS.trimStart (String c s) = String c s.
Proof.
  intros H. unfold JS.trimStart. cbn [String.length JS.trimStartFrom].
  now rewrite (@dropWhiteSpace_plain c s H).
Qed.

Lemma digit_is_plain (c : ascii) :
  JS.isDigit c = true ->
  startsWhiteSpace c = false /\ c <> "-"%char /\ c <> "+"%char.
Proof.
  destruct c as [[] [] [] [] [] [] [] []]; vm_compute; intros H;
    try discriminate H; repeat split; discriminate.
Qed.

Lemma takeDigits_all (s : string) :
  allChars JS.isDigit s = true -> JS.takeDigits s = s.
Proof.
  induction s as [|c s IH]; simpl; [reflexivity|].
  intros H. apply andb_true_iff in H as [Hc Hs]. now rewrite Hc, IH.
Qed.

(** On a non-empty run of digits [parseInt] gives the double nearest to
    the number they spell. *)
Lemma parseInt10_digits (e : JS.Engine) (digits : string) :
  digits <> "" -> allChars JS.isDigit digits = true ->
  JS.parseInt10 e digits = JS.numberOfDigits e digits.
Proof.
  intros Hne Hall. destruct digits as [|c ds]; [congruence|].
  pose proof Hall as Hall'. simpl in Hall'.
  apply andb_true_iff in Hall' as [Hc _].
  destruct (@digit_is_plain c Hc) as (Hws & Hminus & Hplus).
  unfold JS.parseInt10. rewrite (@trimStart_plain c ds Hws).
  assert (E : match String c ds with
              | String "-" r => (true, r)
              | String "+" r => (false, r)
              | _ => (false, String c ds)
              end = (false, String c ds)).
  { destruct c as [[] [] [] [] [] [] [] []]; try reflexivity; congruence. }
  rewrite E, (@takeDigits_all (String c ds) Hall). reflexivity.
Qed.

(** Below [2^53] that number is exact. *)
Lemma parseInt10_exact (e : JS.Engine) (digits : string) :
  digits <> "" -> allChars JS.isDigit digits = true ->
  (JS.decimalValue 0 digits < 2 ^ 53)%Z ->
  JS.parseInt10 e digits = JS.Num (JS.decimalValue 0 digits).
Proof.
  intros Hne Hall Hlt. rewrite (@parseInt10_digits e digits Hne Hall).
  unfold JS.numberOfDigits. apply Z.ltb_lt in Hlt. now rewrite Hlt.
Qed.

Lemma decimalValue_nonneg (ds : string) (acc : Z) :
  (0 <= acc)%Z -> (0 <= JS.decimalValue acc ds)%Z.
Proof.
  revert acc. induction ds as [|c ds IH]; intros acc Hacc; cbn [JS.decimalValue];
    [exact Hacc|].
  apply IH. unfold JS.digitValue. lia.
Qed.

Lemma toDouble_not_NaN (v : Z) : JS.toDouble v <> JS.NaN.
Proof.
  unfold JS.toDouble.
  repeat match goal with
         | |- context [if ?b then _ else _] => destruct b
         | |- context [let _ := _ in _] => cbv zeta
         end; discriminate.
Qed.

(** A run of digits is a number. *)
Lemma parseInt10_never_NaN (e : JS.Engine) (digits : string) :
  digits <> "" -> allChars JS.isDigit digits = true ->
  JS.parseInt10 e digits <> JS.NaN.
Proof.
  intros Hne Hall. rewrite (@parseInt10_digits e digits Hne Hall).
  unfold JS.numberOfDigits.
  destruct (_ <? _)%Z; [discriminate|].
  destruct (_ && _); apply toDouble_not_NaN.
Qed.

End Digits.

Lemma mustGetOwnerTypeQuery_known (ownerType : string) :
  ownerType = "orgs" \/ ownerType = "users" ->
  mustGetOwnerTypeQuery (Some ownerType) = ret (queryRootOf ownerType).
Proof. intros [->| ->]; reflexivity. Qed.

Section UrlOfRun.

Variables (env : Env) (octokit : Octokit) (issue : option Issue)
          (issueOwnerName : option string).

(** After a match, the run asks for the project named by the URL. *)
Lemma afterUrlMatch_format (url scheme ownerType ownerName digits rest : string) :
  ProjectUrlFormat url scheme ownerType ownerName digits rest ->
  let projectNumber := JS.parseInt10 (engine env) digits in
  let q := getProject (queryRootOf ownerType) (Some ownerName) projectNumber in
  afterUrlMatch env octokit issue issueOwnerName
    [("projectNumber", digits); ("ownerName", ownerName); ("ownerType", ownerType)] =
  ([Debug ("Project owner: " ++ ownerName);
    Debug ("Project number: " ++ JS.showNumber (engine env) projectNumber);
    Debug ("Project owner type: " ++ ownerType);
    Graphql q]
   ++ trace (bind (call (octokit q))
               (afterProjectQuery env octokit issue issueOwnerName (Some ownerName)
                  projectNumber (queryRootOf ownerType))),
   completion (bind (call (octokit q))
                 (afterProjectQuery env octokit issue issueOwnerName (Some ownerName)
                    projectNumber (queryRootOf ownerType)))).
Proof.
  intros (_ & _ & Ho & _ & _ & Hdne & Hdig). intros projectNumber q.
  unfold afterUrlMatch. cbn [lookup String.eqb Ascii.eqb Bool.eqb].
  rewrite (mustGetOwnerTypeQuery_known Ho).
  rewrite bind_ret. unfold debug. rewrite !bind_emit, bind_await.
  reflexivity.
Qed.

Lemma afterLabelFilter_format (url scheme ownerType ownerName digits rest : string) :
  ProjectUrlFormat url scheme ownerType ownerName digits rest ->
  numberEnds rest ->
  let projectNumber := JS.parseInt10 (engine env) digits in
  let q := getProject (queryRootOf ownerType) (Some ownerName) projectNumber in
  afterLabelFilter env url octokit issue issueOwnerName =
  ([Debug ("Project URL: " ++ url);
    Debug ("Project owner: " ++ ownerName);
    Debug ("Project number: " ++ JS.showNumber (engine env) projectNumber);
    Debug ("Project owner type: " ++ ownerType);
    Graphql q]
   ++ trace (bind (call (octokit q))
               (afterProjectQuery env octokit issue issueOwnerName (Some ownerName)
                  projectNumber (queryRootOf ownerType))),
   completion (bind (call (octokit q))
                 (afterProjectQuery env octokit issue issueOwnerName (Some ownerName)
                    projectNumber (queryRootOf ownerType)))).
Proof.
  intros Hf Hend projectNumber q.
  unfold afterLabelFilter, debug.
  rewrite bind_emit, (urlParse_complete Hf Hend), (afterUrlMatch_format Hf).
  reflexivity.
Qed.


End UrlOfRun.




(** C10. Whatever project URL [urlParse] matches, the captured owner type
    is [orgs] or [users], and [mustGetOwnerTypeQuery] returns
    [organization] or [user] for it: it does not throw. *)
Theorem unsupported_owner_type_is_unreachable (projectUrl : string) (groups : Groups) :
  matchRegExp projectUrl urlParse = Some groups ->
  (lookup "ownerType" groups = Some "orgs" /\
   mustGetOwnerTypeQuery (lookup "ownerType" groups) = ret organization) \/
  (lookup "ownerType" groups = Some "users" /\
   mustGetOwnerTypeQuery (lookup "ownerType" groups) = ret user).
Proof.
  intros H.
  destruct (urlParse_sound _ H) as (s & t & o & d & r & Hf & ->).
  destruct Hf as (_ & _ & [->| ->] & _); [left | right]; split; reflexivity.
Qed.

Lemma unsupported_owner_type_is_unreachable_sample :
  (lookup "ownerType"
     [("projectNumber", "7"); ("ownerName", "acme"); ("ownerType", "orgs")]
   = Some "orgs" /\
   mustGetOwnerTypeQuery
     (lookup "ownerType"
        [("projectNumber", "7"); ("ownerName", "acme"); ("ownerType", "orgs")])
   = ret organization) \/
  (lookup "ownerType"
     [("projectNumber", "7"); ("ownerName", "acme"); ("ownerType", "orgs")]
   = Some "users" /\
   mustGetOwnerTypeQuery
     (lookup "ownerType"
        [("projectNumber", "7"); ("ownerName", "acme"); ("ownerType", "orgs")])
   = ret user).
Proof.
  apply (@unsupported_owner_type_is_unreachable Sample.acmeUrl).
  reflexivity.
Defined.

(** ** The status override *)

Section StatusOverride.

Variables (env : Env) (root : OwnerQueryTypes) (projectOwnerName : string)
          (projectNumber : JS.number) (projectId itemId : string).

Lemma updateStatusFieldValueOnCard_parts :
  updateStatusFieldValueOnCard env root projectOwnerName projectNumber projectId itemId =
  function_ (
    ghToken <- call (getInput env "github-token" required) ;;
    statusFieldOverride <- call (getInput env "status-override" optional) ;;
    debug ("Status field override: " ++ statusFieldOverride) ;;
    (if (String.length statusFieldOverride =? 0)%nat then
       info "Skipping status field update because no status-override input specified." ;;
       return_
     else skip) ;;
    info ("Overriding " ++ dq ++ "Status" ++ dq ++ " field value on project item") ;;
    statusFieldIdResp <-
      await_graphql (getOctokit env ghToken)
        (getStatusFieldId root projectOwnerName projectNumber) ;;
    afterStatusQuery (getOctokit env ghToken) statusFieldOverride root projectId itemId
      statusFieldIdResp).
Proof. reflexivity. Qed.

Lemma find_first {A} (p : A -> bool) (before : list A) (x : A) (after : list A) :
  (forall y, In y before -> p y = false) -> p x = true ->
  JS.find p (before ++ x :: after) = Some x.
Proof.
  unfold JS.find. induction before as [|y before IH]; simpl; intros Hb Hx.
  - now rewrite Hx.
  - rewrite (Hb y (or_introl eq_refl)). apply IH; auto.
Qed.


Variables (octokit : Octokit) (statusFieldOverride : string)
          (resp : ProjectV2FieldIDResponse).



Lemma afterStatusQuery_no_add :
  addMutations
    (trace (afterStatusQuery octokit statusFieldOverride root projectId itemId resp)) = [].
Proof.
  unfold afterStatusQuery, debug. rewrite !bind_emit.
  destruct (option_map option_id _) as [oid|]; [|reflexivity].
  rewrite bind_await. cbn [trace fst].
  now destruct (octokit _).
Qed.

End StatusOverride.


Section StatusOverrideRun.

Variables (env : Env) (root : OwnerQueryTypes) (projectOwnerName : string)
          (projectNumber : JS.number) (projectId itemId : string)
          (ghToken statusFieldOverride : string).
Hypothesis Htoken : getInput env "github-token" required = Returns ghToken.
Hypothesis Hoverride : getInput env "status-override" optional = Returns statusFieldOverride.

Let run := updateStatusFieldValueOnCard env root projectOwnerName projectNumber
             projectId itemId.
Let query := getStatusFieldId root projectOwnerName projectNumber.

Lemma updateStatus_without_override :
  statusFieldOverride = "" ->
  run = ([Debug "Status field override: ";
          Info "Skipping status field update because no status-override input specified."],
         Normal tt).
Proof.
  intros E. unfold run.
  rewrite updateStatusFieldValueOnCard_parts, Htoken, Hoverride, E.
  reflexivity.
Qed.

Lemma updateStatus_with_override (resp : ProjectV2FieldIDResponse) :
  statusFieldOverride <> "" ->
  getOctokit env ghToken query = Returns resp ->
  run = function_
          ([Debug ("Status field override: " ++ statusFieldOverride);
            Info ("Overriding " ++ dq ++ "Status" ++ dq ++ " field value on project item");
            Graphql query]
           ++ trace (afterStatusQuery (getOctokit env ghToken) statusFieldOverride root
                       projectId itemId resp),
           completion (afterStatusQuery (getOctokit env ghToken) statusFieldOverride root
                         projectId itemId resp)).
Proof.
  intros Hne Hresp. unfold run.
  rewrite updateStatusFieldValueOnCard_parts, Htoken, Hoverride.
  rewrite !bind_call_returns.
  assert (E : (String.length statusFieldOverride =? 0)%nat = false)
    by (destruct statusFieldOverride; [congruence | reflexivity]).
  rewrite E. unfold debug, info, skip.
  rewrite bind_emit, bind_ret, bind_emit, bind_await.
  fold query. rewrite Hresp, bind_call_returns.
  reflexivity.
Qed.

End StatusOverrideRun.



(** ** Adding the item *)

Lemma strictEq_spec (x : option string) (y : string) :
  strictEq x (Some y) = true <-> x = Some y.
Proof.
  destruct x as [a|]; simpl.
  - rewrite String.eqb_eq. split; congruence.
  - split; discriminate.
Qed.

Lemma updateStatusFieldValueOnCard_no_add (env : Env) (root : OwnerQueryTypes)
    (projectOwnerName : string) (projectNumber : JS.number) (projectId itemId : string) :
  addMutations
    (trace (updateStatusFieldValueOnCard env root projectOwnerName projectNumber
              projectId itemId)) = [].
Proof.
  rewrite updateStatusFieldValueOnCard_parts, trace_function_.
  destruct (getInput env "github-token" required) as [ghToken|]; [|reflexivity].
  destruct (getInput env "status-override" optional) as [override|]; [|reflexivity].
  rewrite !bind_call_returns.
  destruct (String.length override =? 0)%nat; [reflexivity|].
  unfold debug, info, skip.
  rewrite bind_emit, bind_ret, bind_emit, bind_await.
  destruct (getOctokit env ghToken _) as [resp|]; [|reflexivity].
  rewrite bind_call_returns. cbn [trace fst].
  unfold addMutations. cbn [requests isAddMutation filter].
  apply afterStatusQuery_no_add.
Qed.

Lemma checkAndUpdateStatus_no_add (env : Env) (idResp : ProjectNodeIDResponse)
    (root : OwnerQueryTypes) (projectOwnerName : option string)
    (projectNumber : JS.number) (itemId : string) :
  addMutations
    (trace (checkAndUpdateStatus env idResp root projectOwnerName projectNumber itemId))
  = [].
Proof.
  unfold checkAndUpdateStatus.
  destruct (projectIdOf idResp root); [|reflexivity].
  destruct projectOwnerName; [|reflexivity].
  apply updateStatusFieldValueOnCard_no_add.
Qed.

Section Attach.

Variables (octokit : Octokit) (issue : option Issue)
          (issueOwnerName projectOwnerName projectId contentId : option string).

Let title := match issue with Some i => html_url i | None => None end.

Lemma attachItem_same_owner :
  strictEq issueOwnerName projectOwnerName = true ->
  attachItem octokit issue issueOwnerName projectOwnerName projectId contentId =
    match octokit (addIssueToProject projectId contentId) with
    | Returns r =>
        ([Info "Creating project item";
          Graphql (addIssueToProject projectId contentId);
          SetOutput "itemId" (addProjectV2ItemById_item_id r)],
         Normal (addProjectV2ItemById_item_id r))
    | Throws msg =>
        ([Info "Creating project item";
          Graphql (addIssueToProject projectId contentId)],
         Throw msg)
    end.
Proof.
  intros E. unfold attachItem. rewrite E.
  unfold info. rewrite bind_emit, bind_await.
  now destruct (octokit _).
Qed.

Lemma attachItem_other_owner :
  strictEq issueOwnerName projectOwnerName = false ->
  attachItem octokit issue issueOwnerName projectOwnerName projectId contentId =
    match octokit (addDraftIssueToProject projectId title) with
    | Returns r =>
        ([Info "Creating draft issue in project";
          Graphql (addDraftIssueToProject projectId title);
          SetOutput "itemId" (addProjectV2DraftIssue_projectItem_id r)],
         Normal (addProjectV2DraftIssue_projectItem_id r))
    | Throws msg =>
        ([Info "Creating draft issue in project";
          Graphql (addDraftIssueToProject projectId title)],
         Throw msg)
    end.
Proof.
  intros E. unfold attachItem. rewrite E.
  unfold info. rewrite bind_emit, bind_await.
  now destruct (octokit _).
Qed.

End Attach.

Section AfterProjectQuery.

Variables (env : Env) (octokit : Octokit) (issue : option Issue)
          (issueOwnerName projectOwnerName : option string)
          (projectNumber : JS.number) (root : OwnerQueryTypes)
          (idResp : ProjectNodeIDResponse).

Let projectId := projectIdOf idResp root.
Let contentId := match issue with Some i => node_id i | None => None end.
Let title := match issue with Some i => html_url i | None => None end.
Let run := afterProjectQuery env octokit issue issueOwnerName projectOwnerName
             projectNumber root idResp.

Lemma afterProjectQuery_same_owner :
  strictEq issueOwnerName projectOwnerName = true ->
  addMutations (trace run) = [addIssueToProject projectId contentId] /\
  (forall r, octokit (addIssueToProject projectId contentId) = Returns r ->
             In (SetOutput "itemId" (addProjectV2ItemById_item_id r)) (trace run)).
Proof.
  intros E. unfold run, afterProjectQuery, debug. rewrite !bind_emit.
  fold projectId contentId.
  rewrite (attachItem_same_owner octokit issue _ _ projectId contentId E).
  destruct (octokit (addIssueToProject projectId contentId)) as [r|msg] eqn:Hr.
  - rewrite bind_normal. cbn [trace fst]. split.
    + change (?a :: ?b :: (?l ++ ?t)) with ((a :: b :: l) ++ t).
      rewrite addMutations_app, checkAndUpdateStatus_no_add. reflexivity.
    + intros r' Hr'. inversion Hr'; subst r'. simpl. auto 6.
  - split; [reflexivity | discriminate].
Qed.

Lemma afterProjectQuery_other_owner :
  strictEq issueOwnerName projectOwnerName = false ->
  addMutations (trace run) = [addDraftIssueToProject projectId title] /\
  (forall r, octokit (addDraftIssueToProject projectId title) = Returns r ->
             In (SetOutput "itemId" (addProjectV2DraftIssue_projectItem_id r))
                (trace run)).
Proof.
  intros E. unfold run, afterProjectQuery, debug. rewrite !bind_emit.
  fold projectId contentId.
  rewrite (attachItem_other_owner octokit issue _ _ projectId contentId E).
  fold title.
  destruct (octokit (addDraftIssueToProject projectId title)) as [r|msg] eqn:Hr.
  - rewrite bind_normal. cbn [trace fst]. split.
    + change (?a :: ?b :: (?l ++ ?t)) with ((a :: b :: l) ++ t).
      rewrite addMutations_app, checkAndUpdateStatus_no_add. reflexivity.
    + intros r' Hr'. inversion Hr'; subst r'. simpl. auto 6.
  - split; [reflexivity | discriminate].
Qed.

End AfterProjectQuery.

Section RunAfterProjectQuery.

Variables (env : Env) (projectUrl ghToken labeledInput labelOperatorInput : string)
          (scheme ownerType ownerName digits rest : string)
          (idResp : ProjectNodeIDResponse).
Hypothesis Hin : inputsRead env projectUrl ghToken labeledInput labelOperatorInput.
Hypothesis Hproceeds : proceedsPastLabelFilter env.
Hypothesis Hformat : ProjectUrlFormat projectUrl scheme ownerType ownerName digits rest.
Hypothesis Hend : numberEnds rest.
Hypothesis Hresp :
  getOctokit env ghToken
    (getProject (queryRootOf ownerType) (Some ownerName)
       (JS.parseInt10 (engine env) digits)) = Returns idResp.

(** The trace of such a run: six events up to the project query, then
    whatever [afterProjectQuery] does. *)
Lemma trace_after_project_query :
  trace (addToProject env) =
    [Debug ("Issue/PR owner: "
            ++ JS.showString (option_map owner_login (repository (payload env))));
     Debug ("Project URL: " ++ projectUrl);
     Debug ("Project owner: " ++ ownerName);
     Debug ("Project number: " ++ JS.showNumber (engine env) (JS.parseInt10 (engine env) digits));
     Debug ("Project owner type: " ++ ownerType);
     Graphql (getProject (queryRootOf ownerType) (Some ownerName)
                (JS.parseInt10 (engine env) digits))]
    ++ trace (afterProjectQuery env (getOctokit env ghToken) (issueOf (payload env))
                (option_map owner_login (repository (payload env))) (Some ownerName)
                (JS.parseInt10 (engine env) digits) (queryRootOf ownerType) idResp).
Proof.
  pose proof Hproceeds as Hp. apply (proceeds_iff_passes Hin) in Hp.
  rewrite (addToProject_passed Hin Hp), trace_function_.
  rewrite (afterLabelFilter_format _ _ _ _ Hformat Hend).
  rewrite Hresp, bind_call_returns. reflexivity.
Qed.

Lemma completion_after_project_query :
  completion (addToProject env) =
    completion
      (function_
         (afterProjectQuery env (getOctokit env ghToken) (issueOf (payload env))
            (option_map owner_login (repository (payload env))) (Some ownerName)
            (JS.parseInt10 (engine env) digits) (queryRootOf ownerType) idResp)).
Proof.
  pose proof Hproceeds as Hp. apply (proceeds_iff_passes Hin) in Hp.
  rewrite (addToProject_passed Hin Hp), !completion_function_.
  rewrite (afterLabelFilter_format _ _ _ _ Hformat Hend).
  rewrite Hresp, bind_call_returns. reflexivity.
Qed.

End RunAfterProjectQuery.

(** C6. In a run that got past the label filter, parsed the project URL
    and received the answer to the project query: the add-item-by-id
    mutation is sent if and only if the login of the repository owner is
    exactly the owner name of the URL, and then it is the only add
    mutation; otherwise the only add mutation is the add-draft-issue
    mutation, titled with the html URL of the issue or pull request; and in
    both cases the identifier the mutation returns is set as the [itemId]
    output. *)
Theorem item_is_added_or_drafted_by_owner
    (env : Env) (projectUrl ghToken labeledInput labelOperatorInput : string)
    (scheme ownerType ownerName digits rest : string)
    (idResp : ProjectNodeIDResponse) :
  inputsRead env projectUrl ghToken labeledInput labelOperatorInput ->
  proceedsPastLabelFilter env ->
  ProjectUrlFormat projectUrl scheme ownerType ownerName digits rest ->
  numberEnds rest ->
  getOctokit env ghToken
    (getProject (queryRootOf ownerType) (Some ownerName)
       (JS.parseInt10 (engine env) digits)) = Returns idResp ->
  let octokit := getOctokit env ghToken in
  let issue := issueOf (payload env) in
  let issueOwnerName := option_map owner_login (repository (payload env)) in
  let projectId := projectIdOf idResp (queryRootOf ownerType) in
  let contentId := match issue with Some i => node_id i | None => None end in
  let title := match issue with Some i => html_url i | None => None end in
  let t := trace (addToProject env) in
  ((exists p c, In (addIssueToProject p c) (requests t)) <->
   issueOwnerName = Some ownerName) /\
  (issueOwnerName = Some ownerName ->
   addMutations t = [addIssueToProject projectId contentId] /\
   forall r, octokit (addIssueToProject projectId contentId) = Returns r ->
             In (SetOutput "itemId" (addProjectV2ItemById_item_id r)) t) /\
  (issueOwnerName <> Some ownerName ->
   addMutations t = [addDraftIssueToProject projectId title] /\
   forall r, octokit (addDraftIssueToProject projectId title) = Returns r ->
             In (SetOutput "itemId" (addProjectV2DraftIssue_projectItem_id r)) t).
Proof.
  intros Hin Hp Hf Hend Hresp octokit issue issueOwnerName projectId contentId title t.
  pose proof (trace_after_project_query Hin Hp Hf Hend Hresp) as Ht.
  fold octokit issue issueOwnerName t in Ht.
  assert (Hsame : issueOwnerName = Some ownerName ->
    addMutations t = [addIssueToProject projectId contentId] /\
    forall r, octokit (addIssueToProject projectId contentId) = Returns r ->
              In (SetOutput "itemId" (addProjectV2ItemById_item_id r)) t).
  { intros E. apply strictEq_spec in E.
    destruct (@afterProjectQuery_same_owner env octokit issue issueOwnerName
                (Some ownerName) (JS.parseInt10 (engine env) digits)
                (queryRootOf ownerType) idResp E)
      as (Hm & Ho).
    rewrite Ht. split.
    - rewrite addMutations_app. exact Hm.
    - intros r Hr. apply in_or_app. right. now apply Ho. }
  assert (Hother : issueOwnerName <> Some ownerName ->
    addMutations t = [addDraftIssueToProject projectId title] /\
    forall r, octokit (addDraftIssueToProject projectId title) = Returns r ->
              In (SetOutput "itemId" (addProjectV2DraftIssue_projectItem_id r)) t).
  { intros N.
    assert (E : strictEq issueOwnerName (Some ownerName) = false).
    { destruct (strictEq issueOwnerName (Some ownerName)) eqn:E; [|reflexivity].
      apply strictEq_spec in E. contradiction. }
    destruct (@afterProjectQuery_other_owner env octokit issue issueOwnerName
                (Some ownerName) (JS.parseInt10 (engine env) digits)
                (queryRootOf ownerType) idResp E)
      as (Hm & Ho).
    rewrite Ht. split.
    - rewrite addMutations_app. exact Hm.
    - intros r Hr. apply in_or_app. right. now apply Ho. }
  split; [|split; assumption].
  split.
  - intros (p & c & Hpc).
    destruct (strictEq issueOwnerName (Some ownerName)) eqn:E;
      [now apply strictEq_spec|].
    exfalso.
    assert (N : issueOwnerName <> Some ownerName).
    { intros Heq. apply strictEq_spec in Heq. congruence. }
    destruct (Hother N) as (Hm & _).
    assert (Hi : In (addIssueToProject p c) (addMutations t))
      by (apply filter_In; split; [exact Hpc | reflexivity]).
    rewrite Hm in Hi. destruct Hi as [Hi|[]]. discriminate.
  - intros E. destruct (Hsame E) as (Hm & _).
    exists projectId, contentId.
    assert (Hi : In (addIssueToProject projectId contentId) (addMutations t))
      by (rewrite Hm; simpl; auto).
    now apply filter_In in Hi.
Qed.

Lemma item_is_added_or_drafted_by_owner_sample :
  addMutations
    (trace (addToProject (Sample.env Sample.acmeUrl "" "" "" [] "other-org" true))) =
  [addDraftIssueToProject (Some "PROJECT")
     (Some "https://github.com/other-org/widgets/issues/12")].
Proof.
  refine (proj1 (proj2 (proj2 (@item_is_added_or_drafted_by_owner
           (Sample.env Sample.acmeUrl "" "" "" [] "other-org" true)
           Sample.acmeUrl "ghs_token" "" "" "https://" "orgs" "acme" "7" ""
           {| nodeId_organization := Some "PROJECT"; nodeId_user := None |}
           (conj eq_refl (conj eq_refl (conj eq_refl eq_refl))) _ _ I eq_refl)) _)).
  - exists Sample.acmeUrl. vm_compute. auto.
  - vm_compute. repeat split; auto; discriminate.
  - vm_compute. discriminate.
Defined.

(** ** The project id check *)

(** C1. The claim asks for the error before any add mutation. On the
    sample run in which the project query answers without an identifier,
    the code sends the add-item mutation with an undefined project id,
    sets the [itemId] output, and only then throws. *)
Theorem mutation_is_sent_without_project_id :
  let run := addToProject (Sample.env Sample.acmeUrl "" "" "" [] "acme" false) in
  requests (trace run) =
    [getProject organization (Some "acme") (JS.Num 7);
     addIssueToProject None (Some "NODE")] /\
  In (SetOutput "itemId" "ITEM") (trace run) /\
  completion run = Throw "Project ID is undefined: undefined. This shouldn't happen.".
Proof. vm_compute. repeat split. auto 20. Qed.

(** In general: when the answer to the project query holds no identifier,
    one add mutation is still sent, with an undefined project id; the
    error is thrown once that mutation has returned, and no status request
    is sent. *)
Lemma project_id_is_checked_after_the_mutation
    (env : Env) (projectUrl ghToken labeledInput labelOperatorInput : string)
    (scheme ownerType ownerName digits rest : string)
    (idResp : ProjectNodeIDResponse) :
  inputsRead env projectUrl ghToken labeledInput labelOperatorInput ->
  proceedsPastLabelFilter env ->
  ProjectUrlFormat projectUrl scheme ownerType ownerName digits rest ->
  numberEnds rest ->
  getOctokit env ghToken
    (getProject (queryRootOf ownerType) (Some ownerName)
       (JS.parseInt10 (engine env) digits)) = Returns idResp ->
  projectIdOf idResp (queryRootOf ownerType) = None ->
  let t := trace (addToProject env) in
  (exists x,
     addMutations t = [addIssueToProject None x] \/
     addMutations t = [addDraftIssueToProject None x]) /\
  filter isStatusRequest (requests t) = [] /\
  (completion (addToProject env) =
     Throw "Project ID is undefined: undefined. This shouldn't happen." \/
   exists msg q, isAddMutation q = true /\ getOctokit env ghToken q = Throws msg /\
                 completion (addToProject env) = Throw msg).
Proof.
  intros Hin Hp Hf Hend Hresp Hnone t.
  pose proof (trace_after_project_query Hin Hp Hf Hend Hresp) as Ht.
  pose proof (completion_after_project_query Hin Hp Hf Hend Hresp) as Hc.
  fold t in Ht. rewrite Hc, Ht. clear Hc Ht.
  rewrite addMutations_app, requests_app, filter_app.
  cbn [addMutations requests filter isAddMutation isStatusRequest app].
  unfold afterProjectQuery, debug. rewrite !bind_emit, Hnone.
  cbn [trace fst completion snd requests].
  destruct (strictEq (option_map owner_login (repository (payload env)))
              (Some ownerName)) eqn:E.
  - rewrite (attachItem_same_owner _ (issueOf (payload env)) _ _ None _ E).
    destruct (getOctokit env ghToken (addIssueToProject None _)) as [r|msg] eqn:Hr.
    + rewrite bind_normal. unfold checkAndUpdateStatus, showProjectV2. rewrite Hnone.
      repeat split; [eexists; left; reflexivity | now left].
    + repeat split; [eexists; left; reflexivity | right].
      exists msg. eexists. repeat split; [| exact Hr]. reflexivity.
  - rewrite (attachItem_other_owner _ (issueOf (payload env)) _ _ None
               (match issueOf (payload env) with Some i => node_id i | None => None end) E).
    destruct (getOctokit env ghToken (addDraftIssueToProject None _)) as [r|msg] eqn:Hr.
    + rewrite bind_normal. unfold checkAndUpdateStatus, showProjectV2. rewrite Hnone.
      repeat split; [eexists; right; reflexivity | now left].
    + repeat split; [eexists; right; reflexivity | right].
      exists msg. eexists. repeat split; [| exact Hr]. reflexivity.
Qed.

(** ** The label operator *)

Section TrimFacts.

Lemma dropPrefix_length (p s s' : string) :
  JS.dropPrefix p s = Some s' ->
  String.length s = String.length p + String.length s'.
Proof.
  revert s. induction p as [|c p IH]; intros s H; simpl in H.
  - now injection H as ->.
  - destruct s as [|d s]; [discriminate|].
    destruct (Ascii.eqb c d); [|discriminate].
    simpl. now rewrite (IH s H).
Qed.

Lemma dropAny_length (tokens : list string) (s s' : string) :
  (forall t, In t tokens -> t <> "") ->
  JS.dropAny tokens s = Some s' -> String.length s' < String.length s.
Proof.
  induction tokens as [|t ts IH]; intros Hne H; simpl in H; [discriminate|].
  destruct (JS.dropPrefix t s) as [r|] eqn:E.
  - injection H as ->. apply dropPrefix_length in E.
    assert (Ht : t <> "") by (apply Hne; now left).
    destruct t; [congruence | simpl in E; lia].
  - apply IH; [|exact H]. intros t' Ht'. apply Hne. now right.
Qed.

Lemma whiteSpace_nonempty (w : string) : In w JS.whiteSpace -> w <> "".
Proof.
  intros H E. subst w. vm_compute in H.
  repeat (destruct H as [H|H]; [discriminate H|]). exact H.
Qed.

Lemma dropWhiteSpace_length (s s' : string) :
  JS.dropWhiteSpace s = Some s' -> String.length s' < String.length s.
Proof. apply dropAny_length. exact whiteSpace_nonempty. Qed.

(** No white-space character starts another one, so the first that fits
    is the one that is there. *)
Lemma dropWhiteSpace_token (w s : string) :
  In w JS.whiteSpace -> JS.dropWhiteSpace (w ++ s) = Some s.
Proof.
  intros H. unfold JS.whiteSpace in H. cbn [In] in H.
  repeat (destruct H as [<-|H]; [reflexivity|]). contradiction.
Qed.

Lemma trimStartFrom_empty (fuel : nat) : JS.trimStartFrom fuel "" = "".
Proof. destruct fuel; reflexivity. Qed.

(** More fuel than the length changes nothing. *)
Lemma trimStartFrom_enough (n m : nat) (s : string) :
  String.length s <= n -> String.length s <= m ->
  JS.trimStartFrom n s = JS.trimStartFrom m s.
Proof.
  revert m s. induction n as [|n IH]; intros m s Hn Hm.
  - destruct s; [|simpl in Hn; lia]. now rewrite !trimStartFrom_empty.
  - destruct m as [|m].
    + destruct s; [|simpl in Hm; lia]. now rewrite !trimStartFrom_empty.
    + cbn [JS.trimStartFrom].
      destruct (JS.dropWhiteSpace s) as [s'|] eqn:E; [|reflexivity].
      apply dropWhiteSpace_length in E. apply IH; lia.
Qed.

Lemma trimStart_token (w s : string) :
  In w JS.whiteSpace -> JS.trimStart (w ++ s) = JS.trimStart s.
Proof.
  intros H. unfold JS.trimStart.
  pose proof (dropWhiteSpace_token s H) as E.
  pose proof (dropWhiteSpace_length _ E) as Hlen.
  destruct (String.length (w ++ s)) as [|n] eqn:El; [lia|].
  cbn [JS.trimStartFrom]. rewrite E.
  apply trimStartFrom_enough; lia.
Qed.

Lemma trimStart_space (before s : string) :
  WhiteSpaceOnly before -> JS.trimStart (before ++ s) = JS.trimStart s.
Proof.
  induction 1 as [|w b Hw Hb IH]; [reflexivity|].
  now rewrite append_assoc, (trimStart_token _ Hw).
Qed.

Lemma trimStart_blank (s : string) : WhiteSpaceOnly s -> JS.trimStart s = "".
Proof.
  intros H. rewrite <- (append_empty_r s). now rewrite (trimStart_space "" H).
Qed.

Lemma trimEnd_blank (s : string) : WhiteSpaceOnly s -> JS.trimEnd s = "".
Proof.
  intros H. destruct s as [|c s]; [reflexivity|].
  cbn [JS.trimEnd]. unfold JS.isBlank. now rewrite (trimStart_blank H).
Qed.

Lemma trim_blank (s : string) : WhiteSpaceOnly s -> JS.trim s = "".
Proof. intros H. unfold JS.trim. now rewrite (trimStart_blank H). Qed.

Lemma trimEnd_core (core after : string) :
  allChars (fun c => negb (startsWhiteSpace c)) core = true ->
  WhiteSpaceOnly after ->
  JS.trimEnd (core ++ after) = core.
Proof.
  intros Hc Ha. induction core as [|c core IH].
  - now apply trimEnd_blank.
  - simpl in Hc. apply andb_true_iff in Hc as [Hn Hc].
    apply negb_true_iff in Hn.
    change (String c core ++ after)%string with (String c (core ++ after)).
    cbn [JS.trimEnd]. unfold JS.isBlank.
    rewrite (@trimStart_plain c (core ++ after) Hn), (IH Hc). reflexivity.
Qed.

Lemma trim_padded (before core after : string) :
  WhiteSpaceOnly before ->
  allChars (fun c => negb (startsWhiteSpace c)) core = true ->
  WhiteSpaceOnly after ->
  JS.trim (before ++ core ++ after) = core.
Proof.
  intros Hb Hc Ha. unfold JS.trim. rewrite (trimStart_space (core ++ after) Hb).
  destruct core as [|c core].
  - simpl. now rewrite (trimStart_blank Ha).
  - pose proof Hc as Hc'. simpl in Hc'. apply andb_true_iff in Hc' as [Hn _].
    apply negb_true_iff in Hn.
    change (String c core ++ after)%string with (String c (core ++ after)).
    rewrite (@trimStart_plain c (core ++ after) Hn).
    now apply (@trimEnd_core (String c core) after).
Qed.

End TrimFacts.

Section Normalisation.

Lemma letter_is_plain (c : ascii) :
  JS.isUpper c || isLowerLetter c = true ->
  startsWhiteSpace c = false /\ JS.isAscii c = true.
Proof.
  destruct c as [[] [] [] [] [] [] [] []]; vm_compute; intros H;
    try discriminate H; split; reflexivity.
Qed.

Lemma lowerChar_letter (c : ascii) :
  JS.lowerChar c =
  if JS.isUpper c then ascii_of_nat (nat_of_ascii c + 32) else c.
Proof. reflexivity. Qed.

Lemma sameLetter_lower (c d : ascii) :
  sameLetter c d -> plainLetter d = true ->
  JS.lowerChar c = d /\ startsWhiteSpace c = false /\
  (JS.isAscii c && negb (Ascii.eqb c "I")) = true.
Proof.
  unfold plainLetter. intros Hs Hd. apply andb_true_iff in Hd as [Hl Hi].
  apply negb_true_iff, Ascii.eqb_neq in Hi.
  assert (Hnu : JS.isUpper d = false).
  { destruct d as [[] [] [] [] [] [] [] []]; vm_compute in Hl |- *;
      try discriminate Hl; reflexivity. }
  destruct Hs as [->|[[Hu E]|[Hu E]]].
  - destruct (@letter_is_plain d) as (Hw & Ha); [now rewrite Hl, orb_true_r|].
    rewrite lowerChar_letter, Hnu, Hw, Ha. repeat split.
    apply negb_true_iff, Ascii.eqb_neq. intros ->. discriminate Hl.
  - destruct (@letter_is_plain c) as (Hw & Ha); [now rewrite Hu|].
    rewrite lowerChar_letter, Hu, Hw, Ha, <- E, ascii_nat_embedding.
    repeat split.
    apply negb_true_iff, Ascii.eqb_neq. intros ->. apply Hi.
    rewrite <- (ascii_nat_embedding d), E. reflexivity.
  - congruence.
Qed.

Lemma caseVariant_lower (core canon : string) :
  caseVariant core canon -> allChars plainLetter canon = true ->
  JS.asciiLower core = canon /\
  allChars (fun c => negb (startsWhiteSpace c)) core = true /\
  JS.allBytes (fun c => JS.isAscii c && negb (Ascii.eqb c "I")) core = true.
Proof.
  revert canon. induction core as [|c core IH]; intros [|d canon]; simpl;
    try contradiction; [now repeat split|].
  intros [Hcd Hv] Hl. apply andb_true_iff in Hl as [Hd Hl].
  destruct (@sameLetter_lower c d Hcd Hd) as (-> & -> & ->).
  destruct (IH canon Hv Hl) as (-> & -> & ->). now repeat split.
Qed.

(** An operator written in another letter case, or with white space around
    it, is read as the operator. *)
Lemma operatorVariant_normalised (e : JS.Engine) (canon raw : string) :
  allChars plainLetter canon = true ->
  operatorVariant canon raw ->
  JS.toLocaleLowerCase e (JS.trim raw) = canon.
Proof.
  intros Hl (before & core & after & -> & Hb & Ha & Hv).
  destruct (@caseVariant_lower core canon Hv Hl) as (Hlow & Hcore & Hascii).
  rewrite (@trim_padded before core after Hb Hcore Ha).
  unfold JS.toLocaleLowerCase. now rewrite Hascii.
Qed.

End Normalisation.

(** The rest of the run does not read the [label-operator] input. *)
Lemma afterLabelFilter_withLabelOperator (env : Env) (value projectUrl : string)
    (octokit : Octokit) (issue : option Issue) (issueOwnerName : option string) :
  afterLabelFilter (withLabelOperator env value) projectUrl octokit issue issueOwnerName
  = afterLabelFilter env projectUrl octokit issue issueOwnerName.
Proof. reflexivity. Qed.

Lemma addToProject_same_operator (env : Env) (v1 v2 : string) :
  JS.toLocaleLowerCase (engine env) (JS.trim v1)
  = JS.toLocaleLowerCase (engine env) (JS.trim v2) ->
  addToProject (withLabelOperator env v1) = addToProject (withLabelOperator env v2).
Proof.
  intros E. rewrite !addToProject_parts.
  cbn [getInput withLabelOperator payload getOctokit engine String.eqb Ascii.eqb Bool.eqb].
  destruct (getInput env "project-url" required) as [url|]; [|reflexivity].
  destruct (getInput env "github-token" required) as [tok|]; [|reflexivity].
  destruct (getInput env "labeled" optional) as [lab|]; [|reflexivity].
  rewrite !bind_call_returns. cbv zeta.
  rewrite !afterLabelFilter_withLabelOperator, E. reflexivity.
Qed.

Lemma addToProject_withLabelOperator
    (env : Env) (projectUrl ghToken labeledInput raw : string) :
  inputsRead env projectUrl ghToken labeledInput raw ->
  addToProject (withLabelOperator env raw) = addToProject env.
Proof.
  intros (H1 & H2 & H3 & H4). rewrite !addToProject_parts.
  cbn [getInput withLabelOperator payload getOctokit engine String.eqb Ascii.eqb Bool.eqb].
  rewrite H1, H2, H3, H4. rewrite !bind_call_returns. cbv zeta.
  rewrite !afterLabelFilter_withLabelOperator. reflexivity.
Qed.

(** C9. The [label-operator] input is trimmed and lower-cased before it is
    compared. With an operator that is [and] up to letter case and
    surrounding white space, the run proceeds past the label filter if and
    only if every configured label is a label of the issue; with one that
    is [not] up to letter case and surrounding white space, the run is
    skipped if and only if some configured label is a label of the issue,
    and proceeds otherwise; and either run is the run with the operator
    [and] (respectively [not]) itself. *)
Theorem label_operator_is_normalised
    (env : Env) (projectUrl ghToken labeledInput raw : string)
    (entries : list string) :
  inputsRead env projectUrl ghToken labeledInput raw ->
  commaSeparated labeledInput entries ->
  (operatorVariant "and" raw ->
   (proceedsPastLabelFilter env <->
    forall l, spec_configured (engine env) entries l -> spec_onIssue env l) /\
   addToProject env = addToProject (withLabelOperator env "and")) /\
  (operatorVariant "not" raw ->
   (skipped env <->
    (exists l, spec_configured (engine env) entries l) /\
    exists l, spec_configured (engine env) entries l /\ spec_onIssue env l) /\
   (~ ((exists l, spec_configured (engine env) entries l) /\
       exists l, spec_configured (engine env) entries l /\ spec_onIssue env l) ->
    proceedsPastLabelFilter env) /\
   addToProject env = addToProject (withLabelOperator env "not")).
Proof.
  intros Hin He. split; intros Hv.
  - pose proof (@operatorVariant_normalised (engine env) "and" raw eq_refl Hv) as Hop.
    split; [exact (run_under_and Hin He Hop)|].
    rewrite <- (addToProject_withLabelOperator Hin).
    apply addToProject_same_operator. now rewrite Hop.
  - pose proof (@operatorVariant_normalised (engine env) "not" raw eq_refl Hv) as Hop.
    destruct (run_under_not Hin He Hop) as (Hs & Hp).
    split; [exact Hs | split; [exact Hp|]].
    rewrite <- (addToProject_withLabelOperator Hin).
    apply addToProject_same_operator. now rewrite Hop.
Qed.

Lemma label_operator_is_normalised_sample :
  ~ proceedsPastLabelFilter
      (Sample.env Sample.acmeUrl "bug, help wanted" "AND" "" ["Bug"] "acme" true) /\
  skipped
    (Sample.env Sample.acmeUrl "bug"
       (JS.utf8 160 ++ "Not" ++ JS.utf8 8195) "" ["Bug"] "acme" true).
Proof.
  split.
  - assert (Hc : commaSeparated "bug, help wanted" ["bug"; " help wanted"]).
    { split; [discriminate | split; [|reflexivity]].
      intros entry [<-|[<-|[]]]; reflexivity. }
    assert (Hv : operatorVariant "and" "AND").
    { exists "", "AND", "". simpl. unfold sameLetter.
      repeat split; try apply BlankEmpty; right; left; split; reflexivity. }
    intros H.
    destruct (proj1 (proj1 (proj1 (@label_operator_is_normalised
               (Sample.env Sample.acmeUrl "bug, help wanted" "AND" "" ["Bug"] "acme" true)
               Sample.acmeUrl "ghs_token" "bug, help wanted" "AND"
               ["bug"; " help wanted"]
               (conj eq_refl (conj eq_refl (conj eq_refl eq_refl))) Hc) Hv)) H
               "help wanted")
      as (label & [<-|[]] & E); [|discriminate E].
    split; [discriminate|].
    exists " help wanted". split; [simpl; auto | reflexivity].
  - assert (Hc : commaSeparated "bug" ["bug"]).
    { split; [discriminate | split; [|reflexivity]].
      intros entry [<-|[]]; reflexivity. }
    assert (Hv : operatorVariant "not" (JS.utf8 160 ++ "Not" ++ JS.utf8 8195)).
    { exists (JS.utf8 160), "Not", (JS.utf8 8195).
      split; [reflexivity | split; [|split]].
      - apply (@BlankMore (JS.utf8 160) ""); [vm_compute; tauto | apply BlankEmpty].
      - apply (@BlankMore (JS.utf8 8195) ""); [vm_compute; tauto | apply BlankEmpty].
      - simpl. unfold sameLetter. repeat split; auto. }
    assert (Hl : spec_configured Sample.asciiEngine ["bug"] "bug").
    { split; [discriminate|]. exists "bug". split; [simpl; auto | reflexivity]. }
    apply (proj1 (proj2 (@label_operator_is_normalised
             (Sample.env Sample.acmeUrl "bug"
                (JS.utf8 160 ++ "Not" ++ JS.utf8 8195) "" ["Bug"] "acme" true)
             Sample.acmeUrl "ghs_token" "bug" (JS.utf8 160 ++ "Not" ++ JS.utf8 8195)
             ["bug"]
             (conj eq_refl (conj eq_refl (conj eq_refl eq_refl))) Hc) Hv)).
    split; [now exists "bug"|].
    exists "bug". split; [exact Hl|].
    exists {| name := "Bug" |}. split; [simpl; auto | reflexivity].
Defined.

(** ** The pipeline of a run *)

Lemma observable_app (t1 t2 : list Event) :
  observable (t1 ++ t2) = observable t1 ++ observable t2.
Proof. apply filter_app. Qed.

Lemma settled_function_ (m : M unit) : settled (completion (function_ m)).
Proof.
  rewrite completion_function_.
  destruct (completion m) as [[]| |msg]; [now left | now left | right; now exists msg].
Qed.

Section StatusCases.

Variables (octokit : Octokit) (statusFieldOverride : string)
          (root : OwnerQueryTypes) (projectId itemId : string)
          (resp : ProjectV2FieldIDResponse).

Let run := afterStatusQuery octokit statusFieldOverride root projectId itemId resp.

(** After the field query: either no option has the name and the step
    throws, or the update is sent for an option of the field that has it. *)
Lemma afterStatusQuery_cases :
  (observable (trace run) = [] /\
   completion run =
     Throw ("Invalid " ++ dq ++ "Status" ++ dq ++ " field option value provided: "
            ++ statusFieldOverride) /\
   forall o, In o (optionsOf resp root) -> option_name o <> statusFieldOverride) \/
  (exists f o,
     fieldOf resp root = Some f /\ In o (optionsOf resp root) /\
     option_name o = statusFieldOverride /\
     observable (trace run) =
       [Graphql (updateStatusFieldValue projectId itemId (Some (field_id f))
                   (option_id o))] /\
     completion run =
       match octokit (updateStatusFieldValue projectId itemId (Some (field_id f))
                        (option_id o)) with
       | Returns _ => Normal tt
       | Throws msg => Throw msg
       end).
Proof.
  unfold run, afterStatusQuery.
  destruct (JS.find (fun option => String.eqb (option_name option) statusFieldOverride)
              (optionsOf resp root)) as [o|] eqn:F.
  - right. apply find_some in F as [Hin Hname]. apply String.eqb_eq in Hname.
    assert (Hf : exists f, fieldOf resp root = Some f).
    { unfold optionsOf in Hin. destruct (fieldOf resp root) as [f|];
        [now exists f | contradiction]. }
    destruct Hf as (f & Hf). exists f, o. rewrite Hf.
    repeat split; trivial.
    + cbn [option_map]. unfold debug. rewrite !bind_emit, bind_await.
      cbn [trace fst]. now destruct (octokit _).
    + cbn [option_map]. unfold debug. rewrite !bind_emit, bind_await.
      cbn [completion snd]. now destruct (octokit _).
  - left. repeat split.
    intros o Hin Hname.
    pose proof (find_none _ _ F o Hin) as Hf. cbv beta in Hf.
    apply String.eqb_neq in Hf. contradiction.
Qed.

End StatusCases.

Lemma updateStatusFieldValueOnCard_pipeline (env : Env) (root : OwnerQueryTypes)
    (projectOwnerName : string) (projectNumber : JS.number) (projectId itemId : string) :
  StatusPipeline root projectOwnerName projectNumber (Some projectId) itemId
    (observable (trace (updateStatusFieldValueOnCard env root projectOwnerName
                          projectNumber projectId itemId)))
    (completion (updateStatusFieldValueOnCard env root projectOwnerName
                   projectNumber projectId itemId)).
Proof.
  rewrite updateStatusFieldValueOnCard_parts.
  destruct (getInput env "github-token" required) as [ghToken|msg];
    [|apply StatusSilent; right; now exists msg].
  destruct (getInput env "status-override" optional) as [override|msg];
    [|apply StatusSilent; right; now exists msg].
  rewrite !bind_call_returns.
  destruct (String.length override =? 0)%nat; [apply StatusSilent; now left|].
  unfold debug, info, skip.
  rewrite bind_emit, bind_ret, bind_emit, bind_await.
  destruct (getOctokit env ghToken
              (getStatusFieldId root projectOwnerName projectNumber)) as [resp|msg].
  - rewrite bind_call_returns, trace_function_.
    cbn [trace fst observable filter isLog negb].
    destruct (afterStatusQuery_cases (getOctokit env ghToken) override root projectId
                itemId resp) as [(Ho & Hc & _)|(f & o & _ & _ & _ & Ho & Hc)].
    + fold (observable (trace (afterStatusQuery (getOctokit env ghToken) override root
                                 projectId itemId resp))).
      rewrite Ho. eapply StatusQueried; [reflexivity|].
      rewrite completion_function_. cbn [completion snd]. rewrite Hc.
      eexists. reflexivity.
    + fold (observable (trace (afterStatusQuery (getOctokit env ghToken) override root
                                 projectId itemId resp))).
      rewrite Ho. eapply StatusUpdated; [reflexivity|]. apply settled_function_.
  - eapply StatusQueried; [reflexivity|]. now exists msg.
Qed.

Lemma checkAndUpdateStatus_pipeline (env : Env) (idResp : ProjectNodeIDResponse)
    (root : OwnerQueryTypes) (owner : string) (n : JS.number) (itemId : string) :
  StatusPipeline root owner n (projectIdOf idResp root) itemId
    (observable (trace (checkAndUpdateStatus env idResp root (Some owner) n itemId)))
    (completion (checkAndUpdateStatus env idResp root (Some owner) n itemId)).
Proof.
  unfold checkAndUpdateStatus.
  destruct (projectIdOf idResp root) as [pid|].
  - apply updateStatusFieldValueOnCard_pipeline.
  - apply StatusSilent. right. eexists. reflexivity.
Qed.

Section PipelineAfterProjectQuery.

Variables (env : Env) (octokit : Octokit) (owner : string) (n : JS.number)
          (root : OwnerQueryTypes) (idResp : ProjectNodeIDResponse).

Let run :=
  afterProjectQuery env octokit (issueOf (payload env))
    (option_map owner_login (repository (payload env))) (Some owner) n root idResp.
Let add := addRequest env owner (projectIdOf idResp root).

Lemma afterProjectQuery_cases :
  (observable (trace run) = [Graphql add] /\ failed (completion run) /\
   returnedItemId octokit add = None) \/
  (exists itemId st,
     returnedItemId octokit add = Some itemId /\
     observable (trace run) = [Graphql add; SetOutput "itemId" itemId] ++ st /\
     st = observable (trace (checkAndUpdateStatus env idResp root (Some owner) n itemId)) /\
     completion run =
       completion (checkAndUpdateStatus env idResp root (Some owner) n itemId)).
Proof.
  unfold run, add, afterProjectQuery, addRequest, debug. rewrite !bind_emit.
  cbn [trace fst completion snd observable filter isLog negb].
  destruct (strictEq (option_map owner_login (repository (payload env))) (Some owner))
    eqn:E.
  - rewrite (attachItem_same_owner octokit (issueOf (payload env)) _ _
               (projectIdOf idResp root)
               (match issueOf (payload env) with Some i => node_id i | None => None end)
               E).
    unfold returnedItemId.
    destruct (octokit (addIssueToProject _ _)) as [r|msg].
    + right. exists (addProjectV2ItemById_item_id r). eexists.
      rewrite bind_normal. cbn [trace fst completion snd].
      fold (observable
              (([Info "Creating project item";
                 Graphql (addIssueToProject (projectIdOf idResp root)
                            (match issueOf (payload env) with
                             | Some i => node_id i
                             | None => None
                             end));
                 SetOutput "itemId" (addProjectV2ItemById_item_id r)]
                ++ trace (checkAndUpdateStatus env idResp root (Some owner) n
                            (addProjectV2ItemById_item_id r))))).
      rewrite observable_app. repeat split; reflexivity.
    + left. repeat split. now exists msg.
  - rewrite (attachItem_other_owner octokit (issueOf (payload env)) _ _
               (projectIdOf idResp root)
               (match issueOf (payload env) with Some i => node_id i | None => None end)
               E).
    unfold returnedItemId.
    destruct (octokit (addDraftIssueToProject _ _)) as [r|msg].
    + right. exists (addProjectV2DraftIssue_projectItem_id r). eexists.
      rewrite bind_normal. cbn [trace fst completion snd].
      fold (observable
              (([Info "Creating draft issue in project";
                 Graphql (addDraftIssueToProject (projectIdOf idResp root)
                            (match issueOf (payload env) with
                             | Some i => html_url i
                             | None => None
                             end));
                 SetOutput "itemId" (addProjectV2DraftIssue_projectItem_id r)]
                ++ trace (checkAndUpdateStatus env idResp root (Some owner) n
                            (addProjectV2DraftIssue_projectItem_id r))))).
      rewrite observable_app. repeat split; reflexivity.
    + left. repeat split. now exists msg.
Qed.

End PipelineAfterProjectQuery.

Lemma observable_debug (msg : string) (t : list Event) :
  observable (Debug msg :: t) = observable t.
Proof. reflexivity. Qed.

Lemma observable_info (msg : string) (t : list Event) :
  observable (Info msg :: t) = observable t.
Proof. reflexivity. Qed.

Lemma observable_graphql (q : Request) (t : list Event) :
  observable (Graphql q :: t) = Graphql q :: observable t.
Proof. reflexivity. Qed.

Lemma observable_setOutput (key value : string) (t : list Event) :
  observable (SetOutput key value :: t) = SetOutput key value :: observable t.
Proof. reflexivity. Qed.

(** Every run, whatever the environment, shows one of the pipelines. *)
Lemma addToProject_pipeline (env : Env) :
  Pipeline env (observable (trace (addToProject env))) (completion (addToProject env)).
Proof.
  rewrite addToProject_parts.
  destruct (getInput env "project-url" required) as [url|msg];
    [|apply RunSilent; right; now exists msg].
  destruct (getInput env "github-token" required) as [tok|msg] eqn:Htok;
    [|apply RunSilent; right; now exists msg].
  destruct (getInput env "labeled" optional) as [lab|msg];
    [|apply RunSilent; right; now exists msg].
  destruct (getInput env "label-operator" optional) as [op|msg];
    [|apply RunSilent; right; now exists msg].
  rewrite !bind_call_returns. cbv zeta.
  destruct (labelFilterPasses (JS.toLocaleLowerCase (engine env) (JS.trim op)) (labeledOf (engine env) lab)
              (issueLabelsOf (engine env) (issueOf (payload env)))) eqn:Hp.
  - rewrite (labelFilter_passes (engine env) _ _ _ (issueOf (payload env)) Hp).
    unfold skip, debug. rewrite bind_emit, bind_ret.
    unfold afterLabelFilter, debug. rewrite bind_emit.
    destruct (matchRegExp url urlParse) as [g|] eqn:Hm;
      [|apply RunSilent; right; eexists; reflexivity].
    destruct (urlParse_sound _ Hm) as (s & t & o & d & r & Hf & ->).
    rewrite (afterUrlMatch_format env (getOctokit env tok) (issueOf (payload env))
               (option_map owner_login (repository (payload env))) Hf).
    rewrite trace_function_, completion_function_.
    cbn [trace fst completion snd app].
    rewrite !observable_debug, observable_graphql.
    destruct (getOctokit env tok
                (getProject (queryRootOf t) (Some o) (JS.parseInt10 (engine env) d)))
      as [idResp|msg].
    + rewrite bind_call_returns.
      destruct (afterProjectQuery_cases env (getOctokit env tok) o
                  (JS.parseInt10 (engine env) d) (queryRootOf t) idResp)
        as [(Ho & (msg & Hc) & _)|(itemId & st & Hid & Ho & Hst & Hc)].
      * rewrite Ho, Hc. apply RunAddFailed. now exists msg.
      * rewrite Ho, Hc.
        pose proof (checkAndUpdateStatus_pipeline env idResp (queryRootOf t) o
                      (JS.parseInt10 (engine env) d) itemId) as Hs.
        rewrite <- Hst in Hs.
        assert (Hs' : StatusPipeline (queryRootOf t) o (JS.parseInt10 (engine env) d)
                        (projectIdOf idResp (queryRootOf t)) itemId st
                        match completion (checkAndUpdateStatus env idResp (queryRootOf t)
                                            (Some o) (JS.parseInt10 (engine env) d) itemId)
                        with
                        | Normal _ | Return => Normal tt
                        | Throw msg => Throw msg
                        end).
        { inversion Hs as [c Hset|pid c Hpid Hfail|pid fid oid c Hpid Hset];
            subst; rewrite <- ?H0;
            match goal with
            | H : settled ?c |- _ =>
                destruct H as [->|(m & ->)]
            | H : failed ?c |- _ => destruct H as (m & ->)
            end;
            try (apply StatusSilent; (now left) || (right; now exists m));
            try (eapply StatusQueried; [eassumption | now exists m]);
            try (eapply StatusUpdated; [eassumption | (now left) || (right; now exists m)]). }
        apply (@RunAdded env (queryRootOf t) o (JS.parseInt10 (engine env) d)
                 (projectIdOf idResp (queryRootOf t)) itemId st); [|exact Hs'].
        intros tok' Htok'. rewrite Htok in Htok'. inversion Htok'; subst tok'.
        exact Hid.
    + cbn [trace fst completion snd observable filter]. apply RunQueried. now exists msg.
  - destruct (labelFilter_returns (engine env) _ _ _ (issueOf (payload env)) Hp)
      as (msg & ->).
    apply RunSilent. now left.
Qed.

(** ** Further properties of the code *)

(** X1. A thrown input read ends the run at once: when reading
    [project-url], [github-token], [labeled] or [label-operator] throws
    (the ones before it having been read), the run rejects with that error
    and has logged, requested and set nothing. *)
Theorem missing_input_stops_the_run (env : Env) (msg : string) :
  (getInput env "project-url" required = Throws msg ->
   addToProject env = ([], Throw msg)) /\
  (forall url,
     getInput env "project-url" required = Returns url ->
     getInput env "github-token" required = Throws msg ->
     addToProject env = ([], Throw msg)) /\
  (forall url tok,
     getInput env "project-url" required = Returns url ->
     getInput env "github-token" required = Returns tok ->
     getInput env "labeled" optional = Throws msg ->
     addToProject env = ([], Throw msg)) /\
  (forall url tok lab,
     getInput env "project-url" required = Returns url ->
     getInput env "github-token" required = Returns tok ->
     getInput env "labeled" optional = Returns lab ->
     getInput env "label-operator" optional = Throws msg ->
     addToProject env = ([], Throw msg)).
Proof.
  repeat split; intros; rewrite addToProject_parts;
    repeat match goal with H : getInput _ _ _ = _ |- _ => rewrite H; clear H end;
    reflexivity.
Qed.

Lemma missing_input_stops_the_run_sample :
  addToProject
    (withoutInput (Sample.env Sample.acmeUrl "bug" "" "" ["bug"] "acme" true)
       "github-token")
  = ([], Throw "Input required and not supplied: github-token").
Proof.
  apply (proj1 (proj2 (@missing_input_stops_the_run
           (withoutInput (Sample.env Sample.acmeUrl "bug" "" "" ["bug"] "acme" true)
              "github-token")
           "Input required and not supplied: github-token")) Sample.acmeUrl).
  - reflexivity.
  - reflexivity.
Defined.

Section NoLabels.

Lemma split_prepend (sep : ascii) (w s : string) :
  allChars (fun c => negb (Ascii.eqb c sep)) w = true ->
  JS.split sep (w ++ s) =
    match JS.split sep s with
    | x :: xs => (w ++ x)%string :: xs
    | [] => [w]
    end.
Proof.
  induction w as [|c w IH]; simpl; intros H.
  - destruct (JS.split sep s) eqn:E; [|reflexivity].
    destruct s as [|d s]; simpl in E; [discriminate|].
    destruct (Ascii.eqb d sep); [discriminate|].
    destruct (JS.split sep s); discriminate.
  - apply andb_true_iff in H as [Hc Hw]. apply negb_true_iff in Hc.
    rewrite Hc, (IH Hw). now destruct (JS.split sep s).
Qed.

Lemma whiteSpace_no_comma (w : string) :
  In w JS.whiteSpace -> allChars (fun c => negb (Ascii.eqb c ",")) w = true.
Proof.
  intros H. unfold JS.whiteSpace in H. cbn [In] in H.
  repeat (destruct H as [<-|H]; [reflexivity|]). contradiction.
Qed.

(** The entries of an input of commas and white space are white space. *)
Lemma blank_entries (input : string) :
  CommasAndWhiteSpace input ->
  forall x, In x (JS.split "," input) -> WhiteSpaceOnly x.
Proof.
  induction 1 as [|s Hs IH|w s Hw Hs IH]; intros x Hx.
  - destruct Hx as [<-|[]]. apply BlankEmpty.
  - change (JS.split "," (String "," s)) with ("" :: JS.split "," s) in Hx.
    destruct Hx as [<-|Hx]; [apply BlankEmpty | now apply IH].
  - rewrite (@split_prepend "," w s (whiteSpace_no_comma Hw)) in Hx.
    destruct (JS.split "," s) as [|y ys].
    + destruct Hx as [<-|[]]. rewrite <- (append_empty_r w).
      apply BlankMore; [exact Hw | apply BlankEmpty].
    + destruct Hx as [<-|Hx].
      * apply BlankMore; [exact Hw | apply IH; now left].
      * apply IH. now right.
Qed.

Lemma blank_input_configures_nothing (e : JS.Engine) (input : string) :
  CommasAndWhiteSpace input -> configuredLabels e input = [].
Proof.
  intros H. unfold configuredLabels, labeledOf.
  pose proof (blank_entries H) as Hall.
  induction (JS.split "," input) as [|x xs IH]; simpl; [reflexivity|].
  rewrite (trim_blank (Hall x (or_introl eq_refl))). cbn.
  apply IH. intros y Hy. apply Hall. now right.
Qed.

End NoLabels.

(** X2. With no label configured the filter never skips, whatever the
    operator; and an input made of commas and white space only (the empty
    input among them, and any white space that [trim] strips) configures
    no label. *)
Theorem no_configured_label_never_skips
    (env : Env) (projectUrl ghToken labeledInput labelOperatorInput : string) :
  inputsRead env projectUrl ghToken labeledInput labelOperatorInput ->
  (configuredLabels (engine env) labeledInput = [] -> proceedsPastLabelFilter env) /\
  (forall entries,
     commaSeparated labeledInput entries ->
     (~ exists l, spec_configured (engine env) entries l) ->
     proceedsPastLabelFilter env) /\
  (CommasAndWhiteSpace labeledInput ->
   configuredLabels (engine env) labeledInput = [] /\
   (forall entries,
      commaSeparated labeledInput entries ->
      ~ exists l, spec_configured (engine env) entries l) /\
   proceedsPastLabelFilter env).
Proof.
  intros Hin.
  assert (H0 : configuredLabels (engine env) labeledInput = [] ->
               proceedsPastLabelFilter env).
  { intros E. apply (proceeds_iff_passes Hin).
    unfold configuredLabels in E. rewrite E. unfold labelFilterPasses.
    destruct (String.eqb _ "and"); [reflexivity|].
    destruct (String.eqb _ "not"); reflexivity. }
  split; [exact H0 | split].
  - intros entries He Hn. apply H0.
    now apply (nothing_configured (engine env) He).
  - intros Hb. pose proof (blank_input_configures_nothing (engine env) Hb) as E.
    split; [exact E | split; [|exact (H0 E)]].
    intros entries He. now apply (nothing_configured (engine env) He).
Qed.

Lemma no_configured_label_never_skips_sample :
  proceedsPastLabelFilter
    (Sample.env Sample.acmeUrl (" ," ++ JS.utf8 160 ++ ",, " ++ JS.utf8 12288)
       "and" "" ["question"] "acme" true).
Proof.
  refine (proj2 (proj2 (proj2 (proj2 (@no_configured_label_never_skips
           (Sample.env Sample.acmeUrl (" ," ++ JS.utf8 160 ++ ",, " ++ JS.utf8 12288)
              "and" "" ["question"] "acme" true)
           Sample.acmeUrl "ghs_token" (" ," ++ JS.utf8 160 ++ ",, " ++ JS.utf8 12288) "and"
           (conj eq_refl (conj eq_refl (conj eq_refl eq_refl))))) _))).
  apply (@BlankInputSpace " "); [vm_compute; tauto|].
  apply BlankInputComma.
  apply (@BlankInputSpace (JS.utf8 160)); [vm_compute; tauto|].
  apply BlankInputComma. apply BlankInputComma.
  apply (@BlankInputSpace " "); [vm_compute; tauto|].
  apply (@BlankInputSpace (JS.utf8 12288) ""); [vm_compute; tauto|].
  apply BlankInputEmpty.
Defined.

Lemma completion_labelFilter (e : JS.Engine) (operator : string)
    (labeled issueLabels : list string) (issue : option Issue) :
  completion (labelFilter e operator labeled issueLabels issue) =
    if labelFilterPasses operator labeled issueLabels then Normal tt else Return.
Proof.
  destruct (labelFilterPasses operator labeled issueLabels) eqn:Hp.
  - now rewrite (labelFilter_passes e _ _ _ issue Hp).
  - now destruct (labelFilter_returns e _ _ _ issue Hp) as (msg & ->).
Qed.

(** X4. The label filter reads both label lists as sets: order and
    repetition of the configured labels and of the labels of the issue do
    not change whether it returns, under any operator. *)
Theorem label_filter_reads_labels_as_sets (e : JS.Engine) (operator : string)
    (labeled labeled' issueLabels issueLabels' : list string) (issue : option Issue) :
  sameElements labeled labeled' ->
  sameElements issueLabels issueLabels' ->
  completion (labelFilter e operator labeled issueLabels issue) =
  completion (labelFilter e operator labeled' issueLabels' issue).
Proof.
  intros Hl Hi. rewrite !completion_labelFilter.
  assert (E : labelFilterPasses operator labeled issueLabels =
              labelFilterPasses operator labeled' issueLabels').
  { apply eq_true_iff_eq. rewrite !labelFilterPasses_spec.
    unfold spec_labelFilterMatches.
    destruct (String.eqb operator "and").
    - split; intros H l Hin; apply Hi, H, Hl, Hin.
    - assert (Hex : (exists l, In l labeled /\ In l issueLabels) <->
                    (exists l, In l labeled' /\ In l issueLabels')).
      { split; intros (l & H1 & H2); exists l; split;
          (apply Hl || apply Hi); assumption. }
      assert (Hnil : labeled = [] <-> labeled' = []).
      { split; intros ->.
        - destruct labeled' as [|x xs]; [reflexivity|].
          destruct (proj2 (Hl x) (or_introl eq_refl)).
        - destruct labeled as [|x xs]; [reflexivity|].
          destruct (proj1 (Hl x) (or_introl eq_refl)). }
      destruct (String.eqb operator "not"); now rewrite Hex, ?Hnil. }
  now rewrite E.
Qed.

Lemma label_filter_reads_labels_as_sets_sample :
  completion (labelFilter Sample.asciiEngine "and" ["bug"; "p1"; "bug"] ["p1"; "bug"] None) =
  completion (labelFilter Sample.asciiEngine "and" ["p1"; "bug"] ["bug"; "bug"; "p1"] None).
Proof.
  apply (@label_filter_reads_labels_as_sets Sample.asciiEngine "and").
  - intros x. simpl. tauto.
  - intros x. simpl. tauto.
Defined.

Section WholeNumber.

Lemma takeDigits_dropDigits (s : string) :
  s = (JS.takeDigits s ++ dropDigits s)%string /\
  allChars JS.isDigit (JS.takeDigits s) = true /\
  numberEnds (dropDigits s).
Proof.
  induction s as [|c s (IH1 & IH2 & IH3)]; simpl; [now repeat split|].
  destruct (JS.isDigit c) eqn:Hc; simpl.
  - rewrite Hc. repeat split; trivial. now rewrite <- IH1.
  - now repeat split.
Qed.

Lemma takeDigits_nothing (s : string) : JS.takeDigits s = "" -> numberEnds s.
Proof.
  destruct s as [|c s]; simpl; [trivial|].
  destruct (JS.isDigit c); [discriminate | reflexivity].
Qed.

Lemma append_nothing (d x : string) : (d ++ x)%string = d -> x = "".
Proof.
  intros H. apply (f_equal String.length) in H. rewrite length_append in H.
  destruct x; [reflexivity | simpl in H; lia].
Qed.

(** A URL of the format, cut so that the number takes all its digits. *)
Lemma format_with_whole_number url scheme ownerType ownerName digits rest :
  ProjectUrlFormat url scheme ownerType ownerName digits rest ->
  ProjectUrlFormat url scheme ownerType ownerName
    (digits ++ JS.takeDigits rest) (dropDigits rest) /\
  numberEnds (dropDigits rest).
Proof.
  intros (E & Hs & Ho & Hne & Hown & Hdne & Hdig).
  destruct (takeDigits_dropDigits rest) as (Hr & Hall & Hend).
  split; [|exact Hend]. repeat split; trivial.
  - rewrite append_assoc, <- Hr. exact E.
  - destruct digits; [congruence | discriminate].
  - now rewrite allChars_append, Hdig, Hall.
Qed.

End WholeNumber.

(** X5. [urlParse] matches exactly the URLs of the format; the captured
    groups are the owner type, the owner name and the number, and the
    number is whole: what follows it in the URL does not start with a
    digit. *)
Theorem urlParse_matches_the_format_and_the_whole_number (url : string) :
  (matchesProjectUrlFormat url <-> exists groups, matchRegExp url urlParse = Some groups) /\
  (forall groups,
     matchRegExp url urlParse = Some groups ->
     exists scheme ownerType ownerName digits rest,
       ProjectUrlFormat url scheme ownerType ownerName digits rest /\
       numberEnds rest /\
       groups = [("projectNumber", digits); ("ownerName", ownerName);
                 ("ownerType", ownerType)]).
Proof.
  split; [split|].
  - intros (s & t & o & d & r & Hf).
    destruct (format_with_whole_number Hf) as (Hf' & Hend).
    eexists. exact (urlParse_complete Hf' Hend).
  - intros (g & Hg).
    destruct (urlParse_sound _ Hg) as (s & t & o & d & r & Hf & _).
    now exists s, t, o, d, r.
  - intros g Hg.
    destruct (urlParse_sound _ Hg) as (s & t & o & d & r & Hf & ->).
    destruct (format_with_whole_number Hf) as (Hf' & Hend).
    pose proof (urlParse_complete Hf' Hend) as Hg'.
    rewrite Hg in Hg'. injection Hg' as Hd.
    symmetry in Hd. apply append_nothing in Hd.
    exists s, t, o, d, r.
    split; [exact Hf | split; [now apply takeDigits_nothing | reflexivity]].
Qed.

Lemma urlParse_matches_the_format_and_the_whole_number_sample :
  exists scheme ownerType ownerName digits rest,
    ProjectUrlFormat "github.com/users/octocat/projects/123/views/4"
      scheme ownerType ownerName digits rest /\
    numberEnds rest /\
    [("projectNumber", "123"); ("ownerName", "octocat"); ("ownerType", "users")] =
    [("projectNumber", digits); ("ownerName", ownerName); ("ownerType", ownerType)].
Proof.
  apply (proj2 (urlParse_matches_the_format_and_the_whole_number
                  "github.com/users/octocat/projects/123/views/4")).
  reflexivity.
Defined.

Section CapturedGroups.

Lemma toDouble_nonneg (v : Z) :
  (0 <= v)%Z ->
  (exists z, JS.toDouble v = JS.Num z /\ (0 <= z)%Z) \/
  JS.toDouble v = JS.Infinity false.
Proof.
  intros Hv. unfold JS.toDouble.
  destruct (v <? 2 ^ 53)%Z; [left; now exists v|].
  cbv zeta.
  match goal with |- context [(2 ^ 1024 <=? ?r)%Z] => set (rounded := r) end.
  destruct (2 ^ 1024 <=? rounded)%Z; [now right | left].
  exists rounded. split; [reflexivity|].
  unfold rounded. apply Z.shiftl_nonneg.
  assert (Hq : (0 <= Z.shiftr v (Z.log2 v - 52))%Z) by now apply Z.shiftr_nonneg.
  destruct (_ || _); lia.
Qed.

(** The number of a run of digits is not negative. *)
Lemma numberOfDigits_nonneg (e : JS.Engine) (ds : string) :
  (exists z, JS.numberOfDigits e ds = JS.Num z /\ (0 <= z)%Z) \/
  JS.numberOfDigits e ds = JS.Infinity false.
Proof.
  unfold JS.numberOfDigits. cbv zeta.
  destruct (_ <? _)%Z.
  - left. eexists. split; [reflexivity|]. apply decimalValue_nonneg. lia.
  - destruct (_ && _); apply toDouble_nonneg; apply decimalValue_nonneg; lia.
Qed.

End CapturedGroups.

(** X6. After a match the owner name and the project number are always
    there: the [ownerName] group is a non-empty name, [parseInt] of the
    [projectNumber] group is never [NaN] and never negative (it is the
    number the digits spell when that is below [2^53], and the nearest
    double, possibly [Infinity], beyond), and so the check of lines 205-207
    for an undefined owner name never throws: what remains is the check of
    the project id and the status update. *)
Theorem owner_name_and_number_are_always_parsed
    (e : JS.Engine) (url : string) (groups : Groups) :
  matchRegExp url urlParse = Some groups ->
  exists owner digits,
    lookup "ownerName" groups = Some owner /\ owner <> "" /\
    lookup "projectNumber" groups = Some digits /\
    JS.parseInt10 e digits <> JS.NaN /\
    ((exists z, JS.parseInt10 e digits = JS.Num z /\ (0 <= z)%Z) \/
     JS.parseInt10 e digits = JS.Infinity false) /\
    ((JS.decimalValue 0 digits < 2 ^ 53)%Z ->
     JS.parseInt10 e digits = JS.Num (JS.decimalValue 0 digits)) /\
    forall env idResp root itemId,
      checkAndUpdateStatus env idResp root (lookup "ownerName" groups)
        (JS.parseInt10 e digits) itemId =
        match projectIdOf idResp root with
        | None =>
            throw ("Project ID is undefined: " ++ showProjectV2 idResp root
                   ++ ". This shouldn't happen.")
        | Some projectId =>
            updateStatusFieldValueOnCard env root owner (JS.parseInt10 e digits)
              projectId itemId
        end.
Proof.
  intros H.
  destruct (urlParse_sound _ H) as (s & t & o & d & r & Hf & ->).
  destruct Hf as (_ & _ & _ & Hne & _ & Hdne & Hdig).
  exists o, d.
  cbn [lookup String.eqb Ascii.eqb Bool.eqb].
  split; [reflexivity | split; [exact Hne | split; [reflexivity|]]].
  split; [now apply parseInt10_never_NaN | split; [|split]].
  - rewrite (@parseInt10_digits e d Hdne Hdig). apply numberOfDigits_nonneg.
  - now apply parseInt10_exact.
  - reflexivity.
Qed.

Lemma owner_name_and_number_are_always_parsed_sample :
  exists owner digits,
    lookup "ownerName"
      [("projectNumber", "7"); ("ownerName", "acme"); ("ownerType", "orgs")]
    = Some owner /\ owner <> "" /\
    lookup "projectNumber"
      [("projectNumber", "7"); ("ownerName", "acme"); ("ownerType", "orgs")]
    = Some digits /\
    JS.parseInt10 Sample.asciiEngine digits <> JS.NaN /\
    ((exists z, JS.parseInt10 Sample.asciiEngine digits = JS.Num z /\ (0 <= z)%Z) \/
     JS.parseInt10 Sample.asciiEngine digits = JS.Infinity false) /\
    ((JS.decimalValue 0 digits < 2 ^ 53)%Z ->
     JS.parseInt10 Sample.asciiEngine digits = JS.Num (JS.decimalValue 0 digits)) /\
    forall env idResp root itemId,
      checkAndUpdateStatus env idResp root
        (lookup "ownerName"
           [("projectNumber", "7"); ("ownerName", "acme"); ("ownerType", "orgs")])
        (JS.parseInt10 Sample.asciiEngine digits) itemId =
        match projectIdOf idResp root with
        | None =>
            throw ("Project ID is undefined: " ++ showProjectV2 idResp root
                   ++ ". This shouldn't happen.")
        | Some projectId =>
            updateStatusFieldValueOnCard env root owner
              (JS.parseInt10 Sample.asciiEngine digits) projectId itemId
        end.
Proof.
  apply (@owner_name_and_number_are_always_parsed Sample.asciiEngine Sample.acmeUrl).
  reflexivity.
Defined.

(** X7. A failing project query ends the run: the run rejects with the
    error of the query, and the query is the only thing it has requested;
    nothing is added and no output is set. *)
Theorem project_query_failure_stops_the_run
    (env : Env) (projectUrl ghToken labeledInput labelOperatorInput : string)
    (scheme ownerType ownerName digits rest msg : string) :
  inputsRead env projectUrl ghToken labeledInput labelOperatorInput ->
  proceedsPastLabelFilter env ->
  ProjectUrlFormat projectUrl scheme ownerType ownerName digits rest ->
  numberEnds rest ->
  getOctokit env ghToken
    (getProject (queryRootOf ownerType) (Some ownerName)
       (JS.parseInt10 (engine env) digits)) = Throws msg ->
  completion (addToProject env) = Throw msg /\
  observable (trace (addToProject env)) =
    [Graphql (getProject (queryRootOf ownerType) (Some ownerName)
                (JS.parseInt10 (engine env) digits))].
Proof.
  intros Hin Hp Hf Hend Hq. apply (proceeds_iff_passes Hin) in Hp.
  rewrite (addToProject_passed Hin Hp).
  rewrite (afterLabelFilter_format _ _ _ _ Hf Hend), Hq.
  split; reflexivity.
Qed.

Lemma project_query_failure_stops_the_run_sample :
  completion
    (addToProject (Failing.env Failing.projectQuery ""))
  = Throw "Could not resolve to an Organization".
Proof.
  refine (proj1 (@project_query_failure_stops_the_run
            (Failing.env Failing.projectQuery "")
            Sample.acmeUrl "ghs_token" "" "" "https://" "orgs" "acme" "7" ""
            "Could not resolve to an Organization"
            (conj eq_refl (conj eq_refl (conj eq_refl eq_refl))) _ _ I eq_refl)).
  - exists Sample.acmeUrl. vm_compute. auto.
  - vm_compute. repeat split; auto; discriminate.
Defined.

(** X8. A failing add mutation ends the run before anything is reported:
    the run rejects with the error of the mutation, no [itemId] output is
    set and no status request is sent. *)
Theorem add_mutation_failure_sets_no_output
    (env : Env) (projectUrl ghToken labeledInput labelOperatorInput : string)
    (scheme ownerType ownerName digits rest msg : string)
    (idResp : ProjectNodeIDResponse) :
  inputsRead env projectUrl ghToken labeledInput labelOperatorInput ->
  proceedsPastLabelFilter env ->
  ProjectUrlFormat projectUrl scheme ownerType ownerName digits rest ->
  numberEnds rest ->
  getOctokit env ghToken
    (getProject (queryRootOf ownerType) (Some ownerName)
       (JS.parseInt10 (engine env) digits)) = Returns idResp ->
  getOctokit env ghToken
    (addRequest env ownerName (projectIdOf idResp (queryRootOf ownerType)))
  = Throws msg ->
  completion (addToProject env) = Throw msg /\
  observable (trace (addToProject env)) =
    [Graphql (getProject (queryRootOf ownerType) (Some ownerName)
                (JS.parseInt10 (engine env) digits));
     Graphql (addRequest env ownerName (projectIdOf idResp (queryRootOf ownerType)))].
Proof.
  intros Hin Hp Hf Hend Hq Hadd.
  rewrite (completion_after_project_query Hin Hp Hf Hend Hq).
  rewrite (trace_after_project_query Hin Hp Hf Hend Hq).
  rewrite observable_app, completion_function_.
  unfold afterProjectQuery, debug. rewrite !bind_emit.
  cbn [trace fst completion snd observable filter isLog negb app].
  fold (observable (trace (bind (attachItem (getOctokit env ghToken) (issueOf (payload env))
     (option_map owner_login (repository (payload env))) (Some ownerName)
     (projectIdOf idResp (queryRootOf ownerType))
     (match issueOf (payload env) with Some i => node_id i | None => None end))
     (fun itemId => checkAndUpdateStatus env idResp (queryRootOf ownerType)
        (Some ownerName) (JS.parseInt10 (engine env) digits) itemId)))).
  unfold addRequest in *.
  destruct (strictEq (option_map owner_login (repository (payload env)))
              (Some ownerName)) eqn:E.
  - rewrite (attachItem_same_owner _ (issueOf (payload env)) _ _
               (projectIdOf idResp (queryRootOf ownerType))
               (match issueOf (payload env) with Some i => node_id i | None => None end)
               E).
    rewrite Hadd. split; reflexivity.
  - rewrite (attachItem_other_owner _ (issueOf (payload env)) _ _
               (projectIdOf idResp (queryRootOf ownerType))
               (match issueOf (payload env) with Some i => node_id i | None => None end)
               E).
    rewrite Hadd. split; reflexivity.
Qed.

Lemma add_mutation_failure_sets_no_output_sample :
  completion
    (addToProject (Failing.env Failing.addMutation "Done"))
  = Throw "Resource not accessible by integration".
Proof.
  refine (proj1 (@add_mutation_failure_sets_no_output
            (Failing.env Failing.addMutation "Done")
            Sample.acmeUrl "ghs_token" "" "" "https://" "orgs" "acme" "7" ""
            "Resource not accessible by integration"
            {| nodeId_organization := Some "PROJECT"; nodeId_user := None |}
            (conj eq_refl (conj eq_refl (conj eq_refl eq_refl))) _ _ I eq_refl eq_refl)).
  - exists Sample.acmeUrl. vm_compute. auto.
  - vm_compute. repeat split; auto; discriminate.
Defined.

Lemma In_observable (e : Event) (t : list Event) :
  isLog e = false -> (In e t <-> In e (observable t)).
Proof.
  intros H. unfold observable. rewrite filter_In, H. simpl. tauto.
Qed.

(** X9. Every run, in every environment, shows one of five pipelines and
    nothing else: nothing at all; the project query alone (and the run has
    thrown); the query and one add mutation (and the run has thrown); these
    two and the [itemId] output, the value being the item id the mutation
    returned; or these three followed by the status step. The status step
    shows nothing, or its field query alone (and the run has thrown), or
    the field query and one update; it sends its requests only when the
    project id is defined, for the same root, owner and number as the
    project query and for the item just added. *)
Theorem every_run_follows_the_pipeline (env : Env) :
  Pipeline env (observable (trace (addToProject env))) (completion (addToProject env)).
Proof. exact (addToProject_pipeline env). Qed.

Lemma outputs_observable (t : list Event) : outputs (observable t) = outputs t.
Proof.
  induction t as [|[msg|msg|k v|q] t IH]; simpl; trivial. now rewrite IH.
Qed.

(** X10. The only output a run ever sets is [itemId], it sets it at most
    once (a run that sets an output has set exactly this one, exactly
    once), and its value is the item id returned by the add mutation that
    the run has sent. *)
Theorem itemId_is_the_only_output (env : Env) (key value : string) :
  In (SetOutput key value) (trace (addToProject env)) ->
  key = "itemId" /\
  outputs (trace (addToProject env)) = [("itemId", value)] /\
  (forall key' value',
     In (SetOutput key' value') (trace (addToProject env)) -> value' = value) /\
  (forall ghToken,
     getInput env "github-token" required = Returns ghToken ->
     exists owner projectId,
       In (Graphql (addRequest env owner projectId)) (trace (addToProject env)) /\
       returnedItemId (getOctokit env ghToken) (addRequest env owner projectId)
       = Some value).
Proof.
  intros H.
  assert (Hall : forall k v, In (SetOutput k v) (trace (addToProject env)) ->
                 k = "itemId" /\
                 exists root owner n projectId itemId st,
                   observable (trace (addToProject env)) =
                     [Graphql (getProject root (Some owner) n);
                      Graphql (addRequest env owner projectId);
                      SetOutput "itemId" itemId] ++ st /\
                   v = itemId /\
                   forall ghToken,
                     getInput env "github-token" required = Returns ghToken ->
                     returnedItemId (getOctokit env ghToken)
                       (addRequest env owner projectId) = Some itemId).
  { intros k v Hkv. apply In_observable in Hkv; [|reflexivity].
    pose proof (addToProject_pipeline env) as P.
    inversion P as [c Hc E|root owner n c Hc E|root owner n p c Hc E
                    |root owner n p item st c Hid S E];
      rewrite <- E in Hkv.
    - destruct Hkv.
    - destruct Hkv as [Hkv|[]]; discriminate.
    - destruct Hkv as [Hkv|[Hkv|[]]]; discriminate.
    - assert (Hst : ~ In (SetOutput k v) st).
      { inversion S; subst; intros Hi;
          repeat (destruct Hi as [Hi|Hi]; [discriminate|]); destruct Hi. }
      simpl in Hkv. destruct Hkv as [Hkv|[Hkv|[Hkv|Hkv]]]; try discriminate;
        [|contradiction].
      inversion Hkv; subst k v. split; [reflexivity|].
      now exists root, owner, n, p, item, st. }
  destruct (Hall key value H)
    as (Hk & root & owner & n & p & item & st & Eobs & -> & Hid).
  split; [exact Hk | split; [|split]].
  - rewrite <- outputs_observable, Eobs. cbn [app outputs]. f_equal.
    pose proof (addToProject_pipeline env) as P. rewrite Eobs in P.
    inversion P as [| | |root' owner' n' p' item' st' c Hid' S E].
    inversion S; reflexivity.
  - intros k' v' H'.
    destruct (Hall k' v' H')
      as (_ & root' & owner' & n' & p' & item' & st' & Eobs' & -> & _).
    rewrite Eobs in Eobs'. now inversion Eobs'.
  - intros tok Htok. exists owner, p. split; [|now apply Hid].
    apply In_observable; [reflexivity|]. rewrite Eobs. simpl. auto.
Qed.

Lemma itemId_is_the_only_output_sample :
  "itemId" = "itemId" /\
  outputs (trace (addToProject (Sample.env Sample.acmeUrl "" "" "Done" [] "acme" true)))
  = [("itemId", "ITEM")] /\
  (forall key' value',
     In (SetOutput key' value')
        (trace (addToProject (Sample.env Sample.acmeUrl "" "" "Done" [] "acme" true))) ->
     value' = "ITEM") /\
  (forall ghToken,
     getInput (Sample.env Sample.acmeUrl "" "" "Done" [] "acme" true)
       "github-token" required = Returns ghToken ->
     exists owner projectId,
       In (Graphql (addRequest (Sample.env Sample.acmeUrl "" "" "Done" [] "acme" true)
                      owner projectId))
          (trace (addToProject (Sample.env Sample.acmeUrl "" "" "Done" [] "acme" true))) /\
       returnedItemId
         (getOctokit (Sample.env Sample.acmeUrl "" "" "Done" [] "acme" true) ghToken)
         (addRequest (Sample.env Sample.acmeUrl "" "" "Done" [] "acme" true)
            owner projectId)
       = Some "ITEM").
Proof.
  apply (@itemId_is_the_only_output
           (Sample.env Sample.acmeUrl "" "" "Done" [] "acme" true) "itemId" "ITEM").
  vm_compute. auto 20.
Defined.

(** X11. A run that resolves has done one of three things: nothing
    observable (the deliberate skip); added the item and set [itemId]; or
    added the item, set [itemId] and updated its status. It never resolves
    between two steps. *)
Theorem a_resolved_run_is_complete (env : Env) :
  completion (addToProject env) = Normal tt ->
  observable (trace (addToProject env)) = [] \/
  exists root owner n projectId itemId,
    observable (trace (addToProject env)) =
      [Graphql (getProject root (Some owner) n);
       Graphql (addRequest env owner projectId);
       SetOutput "itemId" itemId] \/
    exists pid fieldId optionId,
      projectId = Some pid /\
      observable (trace (addToProject env)) =
        [Graphql (getProject root (Some owner) n);
         Graphql (addRequest env owner projectId);
         SetOutput "itemId" itemId;
         Graphql (getStatusFieldId root owner n);
         Graphql (updateStatusFieldValue pid itemId (Some fieldId) optionId)].
Proof.
  intros Hn. pose proof (addToProject_pipeline env) as P. rewrite Hn in P.
  inversion P as [c Hc E|root owner n c (m & Hc) E|root owner n p c (m & Hc) E
                  |root owner n p item st c Hid S E]; try discriminate.
  - now left.
  - right. exists root, owner, n, p, item.
    inversion S as [c' Hc'|pid c' Hp (m & Hc')|pid fid oid c' Hp Hc']; subst;
      try discriminate.
    + now left.
    + right. now exists pid, fid, oid.
Qed.

Lemma a_resolved_run_is_complete_sample :
  observable (trace (addToProject
    (Sample.env Sample.acmeUrl "" "" "Done" [] "acme" true))) = [] \/
  exists root owner n projectId itemId,
    observable (trace (addToProject
      (Sample.env Sample.acmeUrl "" "" "Done" [] "acme" true))) =
      [Graphql (getProject root (Some owner) n);
       Graphql (addRequest (Sample.env Sample.acmeUrl "" "" "Done" [] "acme" true)
                  owner projectId);
       SetOutput "itemId" itemId] \/
    exists pid fieldId optionId,
      projectId = Some pid /\
      observable (trace (addToProject
        (Sample.env Sample.acmeUrl "" "" "Done" [] "acme" true))) =
        [Graphql (getProject root (Some owner) n);
         Graphql (addRequest (Sample.env Sample.acmeUrl "" "" "Done" [] "acme" true)
                    owner projectId);
         SetOutput "itemId" itemId;
         Graphql (getStatusFieldId root owner n);
         Graphql (updateStatusFieldValue pid itemId (Some fieldId) optionId)].
Proof.
  apply (@a_resolved_run_is_complete
           (Sample.env Sample.acmeUrl "" "" "Done" [] "acme" true)).
  reflexivity.
Defined.

(** X15. An event that lacks parts still goes through: when the payload
    has neither an issue nor a pull request, any add mutation the run
    sends carries no content id (add by id) or no title (draft); and when
    the payload has no repository, any add mutation the run sends is the
    draft one. *)
Theorem incomplete_event_is_still_added (env : Env) (q : Request) :
  In (Graphql q) (trace (addToProject env)) ->
  isAddMutation q = true ->
  (issue (payload env) = None -> pull_request (payload env) = None ->
   exists projectId,
     q = addIssueToProject projectId None \/
     q = addDraftIssueToProject projectId None) /\
  (repository (payload env) = None ->
   exists projectId title, q = addDraftIssueToProject projectId title).
Proof.
  intros Hq Hadd. apply In_observable in Hq; [|reflexivity].
  assert (E : exists owner p, q = addRequest env owner p).
  { pose proof (addToProject_pipeline env) as P.
    inversion P as [c Hc E|root owner n c Hc E|root owner n p c Hc E
                    |root owner n p item st c Hid S E];
      rewrite <- E in Hq.
    - destruct Hq.
    - destruct Hq as [Hq|[]]. inversion Hq; subst q. discriminate.
    - destruct Hq as [Hq|[Hq|[]]]; inversion Hq; subst q;
        [discriminate | now exists owner, p].
    - simpl in Hq. destruct Hq as [Hq|[Hq|[Hq|Hq]]]; try discriminate.
      + inversion Hq; subst q. discriminate.
      + inversion Hq. now exists owner, p.
      + exfalso. inversion S; subst;
          repeat (destruct Hq as [Hq|Hq];
                  [inversion Hq; subst q; discriminate|]); destruct Hq. }
  destruct E as (owner & p & ->). unfold addRequest. split.
  - intros Hi Hp. unfold issueOf. rewrite Hi, Hp. exists p.
    destruct (strictEq _ _); auto.
  - intros Hr. rewrite Hr. simpl. eauto.
Qed.

Lemma incomplete_event_is_still_added_sample :
  (issue (payload Failing.bareEnv) = None ->
   pull_request (payload Failing.bareEnv) = None ->
   exists projectId,
     addDraftIssueToProject (Some "PROJECT") None = addIssueToProject projectId None \/
     addDraftIssueToProject (Some "PROJECT") None = addDraftIssueToProject projectId None) /\
  (repository (payload Failing.bareEnv) = None ->
   exists projectId title,
     addDraftIssueToProject (Some "PROJECT") None
     = addDraftIssueToProject projectId title).
Proof.
  apply (@incomplete_event_is_still_added Failing.bareEnv
           (addDraftIssueToProject (Some "PROJECT") None)).
  - vm_compute. auto 20.
  - reflexivity.
Defined.

(** X14. [addToProject] hands over to [updateStatusFieldValueOnCard]: once
    the project query has answered with an id and the add mutation with an
    item id, the rest of the run is the status step for the root, owner
    and number of the URL, that project id and that item id; the run
    completes as the status step does. Without a status override the run
    resolves with the query, the mutation and the output, and nothing
    else. *)
Theorem run_hands_over_to_the_status_step
    (env : Env) (projectUrl ghToken labeledInput labelOperatorInput : string)
    (scheme ownerType ownerName digits rest projectId itemId : string)
    (idResp : ProjectNodeIDResponse) :
  inputsRead env projectUrl ghToken labeledInput labelOperatorInput ->
  proceedsPastLabelFilter env ->
  ProjectUrlFormat projectUrl scheme ownerType ownerName digits rest ->
  numberEnds rest ->
  getOctokit env ghToken
    (getProject (queryRootOf ownerType) (Some ownerName)
       (JS.parseInt10 (engine env) digits)) = Returns idResp ->
  projectIdOf idResp (queryRootOf ownerType) = Some projectId ->
  returnedItemId (getOctokit env ghToken)
    (addRequest env ownerName (Some projectId)) = Some itemId ->
  let status :=
    updateStatusFieldValueOnCard env (queryRootOf ownerType) ownerName
      (JS.parseInt10 (engine env) digits) projectId itemId in
  let shown :=
    [Graphql (getProject (queryRootOf ownerType) (Some ownerName)
                (JS.parseInt10 (engine env) digits));
     Graphql (addRequest env ownerName (Some projectId));
     SetOutput "itemId" itemId] in
  observable (trace (addToProject env)) = shown ++ observable (trace status) /\
  completion (addToProject env) = completion status /\
  (getInput env "status-override" optional = Returns "" ->
   observable (trace (addToProject env)) = shown /\
   completion (addToProject env) = Normal tt).
Proof.
  intros Hin Hp Hf Hend Hq Hpid Hitem status shown.
  assert (H : observable (trace (addToProject env)) = shown ++ observable (trace status) /\
              completion (addToProject env) = completion status).
  { rewrite (completion_after_project_query Hin Hp Hf Hend Hq).
    rewrite (trace_after_project_query Hin Hp Hf Hend Hq).
    rewrite observable_app, completion_function_.
    destruct (afterProjectQuery_cases env (getOctokit env ghToken) ownerName
                (JS.parseInt10 (engine env) digits) (queryRootOf ownerType) idResp)
      as [(_ & _ & Hnone)|(item & st & Hid & Ho & Hst & Hc)];
      rewrite Hpid in *; [congruence|].
    rewrite Hitem in Hid. inversion Hid; subst item.
    rewrite Ho, Hc, Hst. unfold checkAndUpdateStatus. rewrite Hpid.
    fold status. split; [reflexivity|].
    unfold status.
    destruct (updateStatusFieldValueOnCard_pipeline env (queryRootOf ownerType) ownerName
                (JS.parseInt10 (engine env) digits) projectId itemId)
      as [c [->|(m & ->)]|pid c _ (m & ->)|pid fid oid c _ [->|(m & ->)]];
      reflexivity. }
  split; [exact (proj1 H) | split; [exact (proj2 H)|]].
  intros Hov. destruct H as (Ho & Hc). rewrite Ho, Hc. unfold status.
  destruct Hin as (_ & Htok & _).
  rewrite (@updateStatus_without_override env (queryRootOf ownerType) ownerName
             (JS.parseInt10 (engine env) digits) projectId itemId ghToken ""
             Htok Hov eq_refl).
  split; reflexivity.
Qed.

Lemma run_hands_over_to_the_status_step_sample :
  completion (addToProject (Sample.env Sample.acmeUrl "" "" "" [] "acme" true))
  = Normal tt.
Proof.
  refine (proj2 (proj2 (proj2 (@run_hands_over_to_the_status_step
            (Sample.env Sample.acmeUrl "" "" "" [] "acme" true)
            Sample.acmeUrl "ghs_token" "" "" "https://" "orgs" "acme" "7" ""
            "PROJECT" "ITEM"
            {| nodeId_organization := Some "PROJECT"; nodeId_user := None |}
            (conj eq_refl (conj eq_refl (conj eq_refl eq_refl))) _ _ I
            eq_refl eq_refl eq_refl)) eq_refl)).
  - exists Sample.acmeUrl. vm_compute. auto.
  - vm_compute. repeat split; auto; discriminate.
Defined.

(** ** Further properties of the status step *)

Section StatusStep.

Variables (env : Env) (root : OwnerQueryTypes) (projectOwnerName : string)
          (projectNumber : JS.number) (projectId itemId : string).

Let run := updateStatusFieldValueOnCard env root projectOwnerName projectNumber
             projectId itemId.
Let query := getStatusFieldId root projectOwnerName projectNumber.

Lemma requests_observable (t : list Event) : requests (observable t) = requests t.
Proof.
  induction t as [|e t IH]; [reflexivity|].
  destruct e; simpl; now rewrite ?IH.
Qed.

(** All the ways the status step can go. *)
Lemma updateStatusFieldValueOnCard_cases :
  (requests (trace run) = [] /\ settled (completion run)) \/
  (exists ghToken override,
     getInput env "github-token" required = Returns ghToken /\
     getInput env "status-override" optional = Returns override /\
     override <> "" /\
     ((exists msg, getOctokit env ghToken query = Throws msg /\
                   requests (trace run) = [query] /\ completion run = Throw msg) \/
      (exists resp,
         getOctokit env ghToken query = Returns resp /\
         ((requests (trace run) = [query] /\ failed (completion run) /\
           forall o, In o (optionsOf resp root) -> option_name o <> override) \/
          (exists f o,
             fieldOf resp root = Some f /\ In o (optionsOf resp root) /\
             option_name o = override /\
             requests (trace run) =
               [query; updateStatusFieldValue projectId itemId (Some (field_id f))
                         (option_id o)] /\
             completion run =
               match getOctokit env ghToken
                       (updateStatusFieldValue projectId itemId (Some (field_id f))
                          (option_id o)) with
               | Returns _ => Normal tt
               | Throws msg => Throw msg
               end))))).
Proof.
  unfold run. rewrite updateStatusFieldValueOnCard_parts.
  destruct (getInput env "github-token" required) as [ghToken|msg];
    [|left; split; [reflexivity | right; now exists msg]].
  destruct (getInput env "status-override" optional) as [override|msg];
    [|left; split; [reflexivity | right; now exists msg]].
  rewrite !bind_call_returns.
  destruct (String.length override =? 0)%nat eqn:Hlen;
    [left; split; [reflexivity | now left]|].
  right. exists ghToken, override.
  assert (Hne : override <> "") by (intros ->; discriminate).
  repeat split; trivial.
  unfold debug, info, skip. rewrite bind_emit, bind_ret, bind_emit, bind_await.
  fold query.
  destruct (getOctokit env ghToken query) as [resp|msg].
  - right. exists resp. split; [reflexivity|].
    rewrite bind_call_returns, trace_function_, completion_function_.
    cbn [trace fst completion snd requests].
    rewrite <- (requests_observable (trace (afterStatusQuery _ _ _ _ _ _))).
    destruct (afterStatusQuery_cases (getOctokit env ghToken) override root projectId
                itemId resp) as [(Ho & Hc & Hall)|(f & o & Hf & Hin & Hname & Ho & Hc)];
      rewrite Ho, Hc.
    + left. repeat split; trivial. eexists. reflexivity.
    + right. exists f, o. repeat split; trivial.
      now destruct (getOctokit env ghToken _).
  - left. exists msg. repeat split.
Qed.

End StatusStep.

(** X12. The update mutation is never sent blind: whenever the status step
    sends it, it is for the project and the item the step was given, its
    field id is the defined id of the [Status] field, and its option id is
    the id of an option of that field whose name is exactly the override;
    and the field query has been sent before it. *)
Theorem update_mutation_names_a_listed_option
    (env : Env) (root : OwnerQueryTypes) (projectOwnerName : string)
    (projectNumber : JS.number) (projectId itemId : string)
    (projectId' itemId' : string) (fieldId : option string) (optionId : string) :
  In (updateStatusFieldValue projectId' itemId' fieldId optionId)
     (requests (trace (updateStatusFieldValueOnCard env root projectOwnerName
                         projectNumber projectId itemId))) ->
  projectId' = projectId /\ itemId' = itemId /\
  exists ghToken override resp f o,
    getInput env "github-token" required = Returns ghToken /\
    getInput env "status-override" optional = Returns override /\
    getOctokit env ghToken (getStatusFieldId root projectOwnerName projectNumber)
    = Returns resp /\
    fieldOf resp root = Some f /\ fieldId = Some (field_id f) /\
    In o (optionsOf resp root) /\ option_name o = override /\
    optionId = option_id o /\
    requests (trace (updateStatusFieldValueOnCard env root projectOwnerName
                       projectNumber projectId itemId)) =
      [getStatusFieldId root projectOwnerName projectNumber;
       updateStatusFieldValue projectId itemId fieldId optionId].
Proof.
  intros H.
  destruct (updateStatusFieldValueOnCard_cases env root projectOwnerName projectNumber
              projectId itemId)
    as [(E & _)|(tok & ov & Htok & Hov & Hne &
                 [(msg & _ & E & _)|(resp & Hresp &
                   [(E & _)|(f & o & Hf & Hin & Hname & E & _)])])];
    rewrite E in H.
  - destruct H.
  - destruct H as [H|[]]; discriminate.
  - destruct H as [H|[]]; discriminate.
  - destruct H as [H|[H|[]]]; [discriminate|].
    inversion H; subst. repeat split.
    exists tok, (option_name o), resp, f, o. repeat split; trivial.
Qed.

Lemma update_mutation_names_a_listed_option_sample :
  "PROJECT" = "PROJECT" /\ "ITEM" = "ITEM" /\
  exists ghToken override resp f o,
    getInput (Sample.env Sample.acmeUrl "" "" "Done" [] "acme" true)
      "github-token" required = Returns ghToken /\
    getInput (Sample.env Sample.acmeUrl "" "" "Done" [] "acme" true)
      "status-override" optional = Returns override /\
    getOctokit (Sample.env Sample.acmeUrl "" "" "Done" [] "acme" true) ghToken
      (getStatusFieldId organization "acme" (JS.Num 7)) = Returns resp /\
    fieldOf resp organization = Some f /\ Some "FIELD" = Some (field_id f) /\
    In o (optionsOf resp organization) /\ option_name o = override /\
    "opt-done" = option_id o /\
    requests (trace (updateStatusFieldValueOnCard
                       (Sample.env Sample.acmeUrl "" "" "Done" [] "acme" true)
                       organization "acme" (JS.Num 7) "PROJECT" "ITEM")) =
      [getStatusFieldId organization "acme" (JS.Num 7);
       updateStatusFieldValue "PROJECT" "ITEM" (Some "FIELD") "opt-done"].
Proof.
  apply (@update_mutation_names_a_listed_option
           (Sample.env Sample.acmeUrl "" "" "Done" [] "acme" true)
           organization "acme" (JS.Num 7) "PROJECT" "ITEM").
  vm_compute. auto.
Defined.

Section StatusCompletion.

Variables (octokit : Octokit) (statusFieldOverride : string)
          (root : OwnerQueryTypes) (projectId itemId : string)
          (resp : ProjectV2FieldIDResponse)
          (before : list FieldOption) (o : FieldOption) (after : list FieldOption).
Hypothesis Hoptions : optionsOf resp root = before ++ o :: after.
Hypothesis Hbefore : forall o', In o' before -> option_name o' <> statusFieldOverride.
Hypothesis Hname : option_name o = statusFieldOverride.

Lemma completion_afterStatusQuery :
  completion (afterStatusQuery octokit statusFieldOverride root projectId itemId resp) =
    match octokit (updateStatusFieldValue projectId itemId
                     (option_map field_id (fieldOf resp root)) (option_id o)) with
    | Returns _ => Normal tt
    | Throws msg => Throw msg
    end.
Proof.
  unfold afterStatusQuery. rewrite Hoptions.
  rewrite (find_first (fun option => String.eqb (option_name option) statusFieldOverride)
             before o after).
  - cbn [option_map]. unfold debug. rewrite !bind_emit, bind_await.
    cbn [completion snd]. now destruct (octokit _).
  - intros o' Ho'. apply String.eqb_neq. auto.
  - now apply String.eqb_eq.
Qed.

End StatusCompletion.

(** X13. The status step reports every failure and only resolves when the
    update went through: a thrown read of [github-token] or
    [status-override] rejects it before anything is logged (the token is
    read even when no override is configured); a failing field query
    rejects it with that error, the query being the only request; and once
    the option is found the step rejects with the error of the update
    mutation when that fails, and resolves when it answers. *)
Theorem status_step_reports_every_failure
    (env : Env) (root : OwnerQueryTypes) (projectOwnerName : string)
    (projectNumber : JS.number) (projectId itemId : string) :
  let run := updateStatusFieldValueOnCard env root projectOwnerName projectNumber
               projectId itemId in
  let query := getStatusFieldId root projectOwnerName projectNumber in
  (forall msg,
     getInput env "github-token" required = Throws msg -> run = ([], Throw msg)) /\
  (forall ghToken msg,
     getInput env "github-token" required = Returns ghToken ->
     getInput env "status-override" optional = Throws msg -> run = ([], Throw msg)) /\
  (forall ghToken override,
     getInput env "github-token" required = Returns ghToken ->
     getInput env "status-override" optional = Returns override ->
     override <> "" ->
     (forall msg,
        getOctokit env ghToken query = Throws msg ->
        completion run = Throw msg /\ requests (trace run) = [query]) /\
     (forall resp before o after,
        getOctokit env ghToken query = Returns resp ->
        optionsOf resp root = before ++ o :: after ->
        (forall o', In o' before -> option_name o' <> override) ->
        option_name o = override ->
        let update :=
          updateStatusFieldValue projectId itemId
            (option_map field_id (fieldOf resp root)) (option_id o) in
        (forall msg, getOctokit env ghToken update = Throws msg ->
                     completion run = Throw msg) /\
        (forall r, getOctokit env ghToken update = Returns r ->
                   completion run = Normal tt))).
Proof.
  intros run query. split; [|split].
  - intros msg H. unfold run.
    rewrite updateStatusFieldValueOnCard_parts, H. reflexivity.
  - intros tok msg Ht Ho. unfold run.
    rewrite updateStatusFieldValueOnCard_parts, Ht, Ho. reflexivity.
  - intros tok ov Ht Ho Hne. split.
    + intros msg Hq. unfold run.
      rewrite updateStatusFieldValueOnCard_parts, Ht, Ho, !bind_call_returns.
      assert (E : (String.length ov =? 0)%nat = false)
        by (destruct ov; [congruence | reflexivity]).
      rewrite E. unfold debug, info, skip.
      rewrite bind_emit, bind_ret, bind_emit, bind_await.
      fold query. rewrite Hq. split; reflexivity.
    + intros resp before o after Hq Hopt Hb Hn update.
      pose proof (@updateStatus_with_override env root projectOwnerName projectNumber
                    projectId itemId tok ov Ht Ho resp Hne Hq) as Hrun.
      fold run in Hrun.
      pose proof (@completion_afterStatusQuery (getOctokit env tok) ov root projectId
                    itemId resp before o after Hopt Hb Hn) as Hc.
      fold update in Hc.
      split; intros x Hx; rewrite Hrun, completion_function_;
        cbn [completion snd] in *; rewrite Hc, Hx; reflexivity.
Qed.

Lemma status_step_reports_every_failure_sample :
  completion
    (updateStatusFieldValueOnCard
       (Sample.env Sample.acmeUrl "" "" "Done" [] "acme" true)
       organization "acme" (JS.Num 7) "PROJECT" "ITEM")
  = Normal tt.
Proof.
  refine (proj2
            (proj2
               (proj2 (proj2 (@status_step_reports_every_failure
                  (Sample.env Sample.acmeUrl "" "" "Done" [] "acme" true)
                  organization "acme" (JS.Num 7) "PROJECT" "ITEM"))
                  "ghs_token" "Done" eq_refl eq_refl _)
               {| field_organization := Some Sample.statusField; field_user := None |}
               [ {| option_id := "opt-todo"; option_name := "Todo" |} ]
               {| option_id := "opt-done"; option_name := "Done" |} []
               eq_refl eq_refl _ eq_refl)
            {| updateProjectV2ItemFieldValue_updatedAt := "2024-01-01T00:00:00Z" |}
            eq_refl).
  - discriminate.
  - simpl. intros o' [<-|[]]. simpl. discriminate.
Defined.
